(** * trezor-link: the framing codec of the low-level transport

    A shallow embedding of [src/lowlevel/send.js] (message construction,
    header encoding, splitting into 63-byte chunks, sequential sending)
    and of the header decoder ([readHeader], [readHeaderChunked],
    [decode], [decodeChunked]), together with the part of the
    bytebuffer.js library (version 5, default big-endian, assertions on)
    that those functions call. *)

From Stdlib Require Import ZArith Lia.
From Stdlib Require Import Strings.Byte.
From stdpp Require Import base option list gmap strings.

Local Open Scope Z_scope.

(** ** Bytes and JavaScript's 32-bit integer operators *)

(** A [Uint8Array] (also a node [Buffer] or the bytes of an [ArrayBuffer]). *)
Abbreviation Uint8Array := (list byte).

(** The number read from one element of a byte array. *)
Definition b2z (b : byte) : Z := Z.of_N (Byte.to_N b).

(** Storing a number into an element of a byte array keeps its low 8 bits. *)
Definition z2b (v : Z) : byte := default x00 (Byte.of_N (Z.to_N (v mod 256))).

(** [new Uint8Array(size)]: zero-initialised. *)
Definition new_Uint8Array (size : Z) : Uint8Array := replicate (Z.to_nat size) x00.

Module JS.
(** [v >>> 0] *)
Definition ToUint32 (v : Z) : Z := v mod 2 ^ 32.
(** [v | 0] *)
Definition ToInt32 (v : Z) : Z := (v + 2 ^ 31) mod 2 ^ 32 - 2 ^ 31.
(** [a << n] *)
Definition shl (a n : Z) : Z := ToInt32 (Z.shiftl (ToInt32 a) (n mod 32)).
(** [a >>> n] *)
Definition ushr (a n : Z) : Z := Z.shiftr (ToUint32 a) (n mod 32).
(** [a & b] *)
Definition band (a b : Z) : Z := ToInt32 (Z.land (ToInt32 a) (ToInt32 b)).
(** [a | b] *)
Definition bor (a b : Z) : Z := ToInt32 (Z.lor (ToInt32 a) (ToInt32 b)).

(** An index argument of [subarray]/[slice]: negative counts from the
    end, and the result is clamped to [0, len]. *)
Definition relative_index (idx len : Z) : Z :=
  if idx <? 0 then Z.max (len + idx) 0 else Z.min idx len.

(** [bytes.subarray(begin, end)] and [buffer.slice(begin, end)]. *)
Definition subarray (bytes : Uint8Array) (b e : Z) : Uint8Array :=
  let len := Z.of_nat (length bytes) in
  let b' := relative_index b len in
  let e' := relative_index e len in
  take (Z.to_nat (e' - b')) (drop (Z.to_nat b') bytes).
End JS.

(** ** Values, errors and results *)

Set Warnings "-register-all".

(** Plain JavaScript data: what trezor.js passes as [data], and what the
    message tables hold.  Numbers are the integral ones.  An array element
    [None] is a hole (a deleted index); the properties of an object are
    listed in enumeration order. *)
Inductive val : Type :=
| VUndefined
| VNull
| VBool (b : bool)
| VNum (n : Z)
| VStr (s : string)
| VArr (elems : list (option val))
| VObj (props : list (string * val)).

Inductive error : Type :=
| RangeError          (* bytebuffer: "Illegal offset", a read or write outside the buffer;
                         also TypedArray.set with a source that does not fit *)
| TypeError           (* bytebuffer: "Illegal value ... (not an integer)";
                         also a property access on null or undefined *)
| HeaderSignatureError (* Error("Didn't receive expected header signature.") *)
| MessageNameNotFound (name : string) (* Error(`The message name ${name} is not found.`) *)
| ExternalError (tag : string).       (* thrown by the protobuf builder or by the sender *)

Inductive result (A : Type) : Type :=
| Ok (a : A)
| Throw (e : error).
Arguments Ok {A} a.
Arguments Throw {A} e.

#[global] Instance result_ret : MRet result := fun A a => Ok a.
#[global] Instance result_bind : MBind result := fun A B f m =>
  match m with
  | Ok a => f a
  | Throw e => Throw e
  end.

(** ** The ByteBuffer of bytebuffer.js *)

Module ByteBuffer.

(** A ByteBuffer: the backing bytes, the read/write cursor and the limit. *)
Record t : Type := mk {
  buffer : Uint8Array;
  offset : Z;
  limit : Z
}.

Definition capacity (bb : t) : Z := Z.of_nat (length (buffer bb)).

(** Methods of a ByteBuffer: they update the receiver and may throw. *)
Definition M (A : Type) : Type := t -> result (A * t).

#[global] Instance M_ret : MRet M := fun A a bb => Ok (a, bb).
#[global] Instance M_bind : MBind M := fun A B f m bb =>
  match m bb with
  | Ok (a, bb') => f a bb'
  | Throw e => Throw e
  end.

(** A step that cannot throw. *)
Definition act {A : Type} (f : t -> A * t) : M A := fun bb => Ok (f bb).

(** [new ByteBuffer(capacity)]:
    [capacity = capacity | 0; if (capacity < 0) throw RangeError] *)
Definition new (capacity : Z) : result t :=
  let capacity := JS.ToInt32 capacity in
  if capacity <? 0 then Throw RangeError
  else Ok {| buffer := new_Uint8Array capacity; offset := 0; limit := capacity |}.

(** [ByteBuffer.wrap(bytes)] for an ArrayBuffer, Buffer or Uint8Array
    that views its whole backing store. *)
Definition wrap (bytes : Uint8Array) : t :=
  {| buffer := bytes; offset := 0; limit := Z.of_nat (length bytes) |}.

(** [ByteBuffer.concat(buffers)]: a new ByteBuffer as large as the
    buffers together; each is copied at the cursor (as far as it fits),
    then the limit is set to the cursor and the cursor to 0. *)
Definition concat (buffers : list Uint8Array) : result t :=
  let bytes := List.concat buffers in
  let capacity := Z.of_nat (length bytes) in
  bb ← new capacity;
  Ok {| buffer := take (length (buffer bb)) bytes ++ drop (length bytes) (buffer bb);
        offset := 0; limit := capacity |}.

(** [view[i]] once [i] is known to be in range. *)
Definition get (bb : t) (i : Z) : Z := b2z (default x00 (buffer bb !! Z.to_nat i)).

(** [view[i] = v] *)
Definition put (i v : Z) (bb : t) : t :=
  {| buffer := <[Z.to_nat i := z2b v]> (buffer bb); offset := offset bb; limit := limit bb |}.

Definition advance (n : Z) (bb : t) : t :=
  {| buffer := buffer bb; offset := offset bb + n; limit := limit bb |}.

(** [resize(capacity)]: grows the backing store, old bytes first, rest zero. *)
Definition resize (cap : Z) (bb : t) : t :=
  if capacity bb <? cap
  then {| buffer := buffer bb ++ new_Uint8Array (cap - capacity bb);
          offset := offset bb; limit := limit bb |}
  else bb.

(** What every relative write does before storing [n] bytes:
    [offset += n; if (offset > capacity) resize((capacity *= 2) > offset ? capacity : offset)]. *)
Definition ensure (n : Z) (bb : t) : t :=
  let off := offset bb + n in
  let cap := capacity bb in
  if off >? cap then resize (if cap * 2 >? off then cap * 2 else off) bb else bb.

(** The assertion of a relative read of [n] bytes:
    [if (offset < 0 || offset + n > buffer.length) throw RangeError]. *)
Definition check_read (n : Z) : M unit := fun bb =>
  if (offset bb <? 0) || (offset bb + n >? capacity bb)
  then Throw RangeError else Ok (tt, bb).

(** The assertion of a relative write:
    [if (offset < 0 || offset + 0 > buffer.byteLength) throw RangeError]. *)
Definition check_write : M unit := fun bb =>
  if (offset bb <? 0) || (offset bb + 0 >? capacity bb)
  then Throw RangeError else Ok (tt, bb).

(** The assertion on a written value:
    [if (typeof value !== 'number' || value % 1 !== 0) throw TypeError]. *)
Definition check_integer (value : val) : M Z := fun bb =>
  match value with
  | VNum n => Ok (n, bb)
  | _ => Throw TypeError
  end.

(** [readByte()], an alias of [readInt8()]: one byte, read as signed. *)
Definition readByte : M Z :=
  _ ← check_read 1;
  act (fun bb =>
    let value := get bb (offset bb) in
    let value := if JS.band value 128 =? 128 then - (255 - value + 1) else value in
    (value, advance 1 bb)).

(** [readUint16()]: two bytes, big-endian. *)
Definition readUint16 : M Z :=
  _ ← check_read 2;
  act (fun bb =>
    let o := offset bb in
    let value := JS.shl (get bb o) 8 in
    let value := JS.bor value (get bb (o + 1)) in
    (value, advance 2 bb)).

(** [readUint32()]: four bytes, big-endian, as an unsigned number. *)
Definition readUint32 : M Z :=
  _ ← check_read 4;
  act (fun bb =>
    let o := offset bb in
    let value := JS.shl (get bb (o + 1)) 16 in
    let value := JS.bor value (JS.shl (get bb (o + 2)) 8) in
    let value := JS.bor value (get bb (o + 3)) in
    let value := value + JS.ushr (JS.shl (get bb o) 24) 0 in
    (value, advance 4 bb)).

(** [writeByte(value)], an alias of [writeInt8]: [value |= 0], one byte stored. *)
Definition writeByte (value : val) : M unit :=
  v ← check_integer value;
  _ ← check_write;
  act (fun bb =>
    let v := JS.ToInt32 v in
    let bb := ensure 1 bb in
    (tt, advance 1 (put (offset bb) v bb))).

(** [writeUint16(value)]: [value >>>= 0], two bytes stored, big-endian. *)
Definition writeUint16 (value : val) : M unit :=
  v ← check_integer value;
  _ ← check_write;
  act (fun bb =>
    let v := JS.ToUint32 v in
    let bb := ensure 2 bb in
    let o := offset bb in
    let bb := put o (JS.ushr (JS.band v 65280) 8) bb in
    let bb := put (o + 1) (JS.band v 255) bb in
    (tt, advance 2 bb)).

(** [writeUint32(value)]: [value >>>= 0], four bytes stored, big-endian. *)
Definition writeUint32 (value : val) : M unit :=
  v ← check_integer value;
  _ ← check_write;
  act (fun bb =>
    let v := JS.ToUint32 v in
    let bb := ensure 4 bb in
    let o := offset bb in
    let bb := put o (JS.band (JS.ushr v 24) 255) bb in
    let bb := put (o + 1) (JS.band (JS.ushr v 16) 255) bb in
    let bb := put (o + 2) (JS.band (JS.ushr v 8) 255) bb in
    let bb := put (o + 3) (JS.band v 255) bb in
    (tt, advance 4 bb)).

(** [view.set(source, at)] inside a buffer already large enough. *)
Definition blit (at_ : Z) (source : Uint8Array) (bb : t) : t :=
  {| buffer := take (Z.to_nat at_) (buffer bb) ++ source
               ++ drop (Z.to_nat at_ + length source)%nat (buffer bb);
     offset := offset bb; limit := limit bb |}.

(** [append(source)] for a Uint8Array: the source is wrapped, and all of
    it is copied at the cursor; an empty source returns at once. *)
Definition append (source : Uint8Array) : M unit :=
  _ ← check_write;
  act (fun bb =>
    let len := Z.of_nat (length source) in
    if len <=? 0 then (tt, bb)
    else
      let bb := ensure len bb in
      (tt, advance len (blit (offset bb) source bb))).

(** [toBuffer()]: the contents, that is the bytes from the cursor to
    the limit; the backing buffer itself when that is all of it. *)
Definition toBuffer (bb : t) : result Uint8Array :=
  if (offset bb <? 0) || (offset bb >? limit bb) || (limit bb >? capacity bb)
  then Throw RangeError
  else if (offset bb =? 0) && (limit bb =? capacity bb)
       then Ok (buffer bb)
       else Ok (JS.subarray (buffer bb) (offset bb) (limit bb)).

End ByteBuffer.

(** ** The header decoder *)

(** [MESSAGE_HEADER_BYTE]: the decoder imports it from the configuration
    module; [send.js] declares the same constant, [0x23]. *)
Definition MESSAGE_HEADER_BYTE : Z := 35.

Module Header.
Record t : Type := mk { typeId : Z; length : Z }.
End Header.

Module HeaderChunked.
Record t : Type := mk { sharp1 : Z; sharp2 : Z; typeId : Z; length : Z }.
End HeaderChunked.

Module Decoded.
Record t : Type := mk { typeId : Z; buffer : Uint8Array }.
End Decoded.

Module DecodedChunked.
Record t : Type := mk { length : Z; typeId : Z; restBuffer : ByteBuffer.t }.
End DecodedChunked.

(** Reads meta information from buffer. *)
Definition readHeader : ByteBuffer.M Header.t :=
  typeId ← ByteBuffer.readUint16;
  length ← ByteBuffer.readUint32;
  mret (Header.mk typeId length).

(** Reads meta information from chunked buffer. *)
Definition readHeaderChunked : ByteBuffer.M HeaderChunked.t :=
  sharp1 ← ByteBuffer.readByte;
  sharp2 ← ByteBuffer.readByte;
  typeId ← ByteBuffer.readUint16;
  length ← ByteBuffer.readUint32;
  mret (HeaderChunked.mk sharp1 sharp2 typeId length).

Definition decode (data : Uint8Array) : result Decoded.t :=
  byteBuffer ← ByteBuffer.concat [data];
  '(h, byteBuffer) ← readHeader byteBuffer;
  buffer ← ByteBuffer.toBuffer byteBuffer;
  mret (Decoded.mk (Header.typeId h) buffer).

(** Parses first raw input that comes from Trezor and returns some
    information about the whole message. *)
Definition decodeChunked (bytes : Uint8Array) : result DecodedChunked.t :=
  let byteBuffer := ByteBuffer.wrap bytes in
  '(h, byteBuffer) ← readHeaderChunked byteBuffer;
  if negb (HeaderChunked.sharp1 h =? MESSAGE_HEADER_BYTE)
     || negb (HeaderChunked.sharp2 h =? MESSAGE_HEADER_BYTE)
  then Throw HeaderSignatureError
  else mret (DecodedChunked.mk (HeaderChunked.length h) (HeaderChunked.typeId h) byteBuffer).

(** ** Building and encoding a message ([send.js]) *)

Definition HEADER_SIZE : Z := 1 + 1 + 4 + 2.
Definition BUFFER_SIZE : Z := 63.

(** A protobuf message as far as [send.js] uses it: the options of its
    type ([$type.options]) and its serialisation ([encodeAB()]), which is
    the library's and may throw. *)
Record Message : Type := {
  options : gmap string val;
  encodeAB : result Uint8Array
}.

(** A builder: [new Builder(data)], or [new Builder()] for [None]. *)
Abbreviation Builder := (option val -> result Message).

(** Builders, generated by reading config. *)
Record Messages : Type := {
  messagesByName : gmap string Builder;
  messageTypes : gmap string val
}.

(** Already built PB message. *)
Record BuiltMessage : Type := {
  message : Message;
  type : val
}.

(** [TypedArray.set(source)]: copies [source] to the start of [target];
    a source longer than the target is a RangeError. *)
Definition Uint8Array_set (target source : Uint8Array) : result Uint8Array :=
  if (length target <? length source)%nat then Throw RangeError
  else Ok (source ++ drop (length source) target).

(** Encodes into "raw" data, but it can be too long and needs to be split
    into smaller buffers. *)
Definition _encodeLong (this : BuiltMessage) (addTrezorHeaders : bool) : result Uint8Array :=
  let headerSize := HEADER_SIZE in
  bytes ← encodeAB (message this);
  let fullSize := (if addTrezorHeaders then headerSize else headerSize - 2)
                  + Z.of_nat (length bytes) in
  encodedByteBuffer ← ByteBuffer.new fullSize;
  '(_, encodedByteBuffer) ←
    (_ ← (if addTrezorHeaders
          then _ ← ByteBuffer.writeByte (VNum MESSAGE_HEADER_BYTE);
               ByteBuffer.writeByte (VNum MESSAGE_HEADER_BYTE)
          else mret tt);
     _ ← ByteBuffer.writeUint16 (type this);
     _ ← ByteBuffer.writeUint32 (VNum (Z.of_nat (length bytes)));
     ByteBuffer.append bytes) encodedByteBuffer;
  mret (ByteBuffer.buffer encodedByteBuffer).

(** The loop of [encode]: [n] more iterations from index [i]. *)
Fixpoint encode_loop (bytes : Uint8Array) (size : Z) (n : nat) (i : Z)
    (acc : list Uint8Array) : result (list Uint8Array) :=
  match n with
  | O => Ok acc
  | S n' =>
      let slice := JS.subarray bytes (i * size) ((i + 1) * size) in
      newArray ← Uint8Array_set (new_Uint8Array size) slice;
      encode_loop bytes size n' (i + 1) (acc ++ [newArray])
  end.

(** The body of [encode] after [_encodeLong(true)]: slice and dice. *)
Definition splitIntoChunks (bytes : Uint8Array) : result (list Uint8Array) :=
  let size := BUFFER_SIZE in
  let count := (Z.of_nat (length bytes) - 1) / size + 1 in
  encode_loop bytes size (Z.to_nat count) 0 [].

(** Encodes itself and splits into "nice" chunks. *)
Definition encode (this : BuiltMessage) : result (list Uint8Array) :=
  bytes ← _encodeLong this true;
  splitIntoChunks bytes.

(** Encodes itself into one long arraybuffer. *)
Definition encodeOne (this : BuiltMessage) : result Uint8Array :=
  _encodeLong this false.

(** ** Cleaning the input object *)

(** [value == null] *)
Definition is_nullish (value : val) : bool :=
  match value with
  | VUndefined | VNull => true
  | _ => false
  end.

(** [typeof value === `object`] *)
Definition typeof_object (value : val) : bool :=
  match value with
  | VNull | VArr _ | VObj _ => true
  | _ => false
  end.

(** [if (data)] *)
Definition truthy (value : val) : bool :=
  match value with
  | VUndefined | VNull => false
  | VBool b => b
  | VNum n => negb (n =? 0)
  | VStr s => negb (String.eqb s "")
  | VArr _ | VObj _ => true
  end.

(** [delete message[key]] on the properties of an object. *)
Definition delete_prop (key : string) (props : list (string * val)) : list (string * val) :=
  filter (fun p => p.1 ≠ key) props.

(** How a statement ends: normally ([None]) or by throwing. *)
Definition completion : Type := option error.

Section cleanup_body.
(** The recursive call [cleanupInput(...)]: the object as it is left,
    and how the call ended; [None] when the call stack is exhausted. *)
Variable rec : val -> option (val * completion).

(** [value.forEach((i) => { if (typeof i === `object`) cleanupInput(i) })];
    holes are not visited. *)
Fixpoint forEach_elems (elems : list (option val)) : option (list (option val) * completion) :=
  match elems with
  | [] => Some ([], None)
  | None :: rest =>
      '(rest', c) ← forEach_elems rest; Some (None :: rest', c)
  | Some i :: rest =>
      if typeof_object i then
        '(i', c) ← rec i;
        match c with
        | Some e => Some (Some i' :: rest, Some e)
        | None => '(rest', c') ← forEach_elems rest; Some (Some i' :: rest', c')
        end
      else
        '(rest', c) ← forEach_elems rest; Some (Some i :: rest', c)
  end.

(** The body of the [for (const key in message)] loop for one value:
    what is left under the key ([None] once deleted). *)
Definition visit (value : val) : option (option val * completion) :=
  if is_nullish value then Some (None, None)
  else
    match value with
    | VArr elems =>
        '(elems', c) ← forEach_elems elems;
        match c with
        | Some e => Some (Some (VArr elems'), Some e)
        | None => '(value', c') ← rec (VArr elems'); Some (Some value', c')
        end
    | VObj _ => '(value', c) ← rec value; Some (Some value', c)
    | _ => Some (Some value, None)
    end.

(** The loop over the properties of an object. *)
Fixpoint forin_props (props : list (string * val)) : option (list (string * val) * completion) :=
  match props with
  | [] => Some ([], None)
  | (key, value) :: rest =>
      '(kept, c) ← visit value;
      let here := match kept with Some v => [(key, v)] | None => [] end in
      match c with
      | Some e => Some (here ++ rest, Some e)
      | None => '(rest', c') ← forin_props rest; Some (here ++ rest', c')
      end
  end.

(** The loop over the indices of an array; holes are not enumerated. *)
Fixpoint forin_elems (elems : list (option val)) : option (list (option val) * completion) :=
  match elems with
  | [] => Some ([], None)
  | None :: rest =>
      '(rest', c) ← forin_elems rest; Some (None :: rest', c)
  | Some value :: rest =>
      '(kept, c) ← visit value;
      match c with
      | Some e => Some (kept :: rest, Some e)
      | None => '(rest', c') ← forin_elems rest; Some (kept :: rest', c')
      end
  end.
End cleanup_body.

(** Removes $$hashkey from angular and remove nulls.  The object is
    changed in place: the result is the object as the call leaves it and
    how the call ended.  [fuel] bounds the depth of the call stack. *)
Fixpoint cleanupInput_fuel (fuel : nat) (message : val) : option (val * completion) :=
  match fuel with
  | O => None
  | S fuel' =>
      match message with
      | VUndefined | VNull => Some (message, Some TypeError)
      | VBool _ | VNum _ | VStr _ => Some (message, None)
      | VArr elems =>
          '(elems', c) ← forin_elems (cleanupInput_fuel fuel') elems;
          Some (VArr elems', c)
      | VObj props =>
          '(props', c) ← forin_props (cleanupInput_fuel fuel') (delete_prop "$$hashKey" props);
          Some (VObj props', c)
      end
  end.

(** Nesting depth of a value. *)
Fixpoint depth (v : val) : nat :=
  match v with
  | VArr elems =>
      S (list_max (map (fun o => match o with Some x => depth x | None => O end) elems))
  | VObj props =>
      S (list_max (map (fun p => match p with (_, x) => depth x end) props))
  | _ => O
  end.

(** [cleanupInput(message)]: the call stack never needs to be deeper
    than the value is nested (see [cleanupInput_fuel_enough]). *)
Definition cleanupInput (message : val) : val * completion :=
  default (message, Some RangeError) (cleanupInput_fuel (S (depth message)) message).

(** What the cleanup is meant to leave: neither a [$$hashKey] property
    nor a property (or array element) whose value is null or undefined,
    in the object itself, in nested objects and in objects inside arrays. *)
Fixpoint prune (v : val) : val :=
  match v with
  | VArr elems =>
      VArr (map (fun o => match o with
                          | Some x => if is_nullish x then None else Some (prune x)
                          | None => None
                          end) elems)
  | VObj props =>
      VObj (omap (fun p => match p with
                           | (key, x) =>
                               if String.eqb key "$$hashKey" || is_nullish x then None
                               else Some (key, prune x)
                           end) props)
  | _ => v
  end.

(** No [$$hashKey], no null or undefined property, at any depth. *)
Fixpoint clean (v : val) : bool :=
  match v with
  | VArr elems =>
      forallb (fun o => match o with
                        | Some x => negb (is_nullish x) && clean x
                        | None => true
                        end) elems
  | VObj props =>
      forallb (fun p => match p with
                        | (key, x) =>
                            negb (String.eqb key "$$hashKey") && negb (is_nullish x) && clean x
                        end) props
  | _ => true
  end.

(** No array holds a null element, at any depth. *)
Fixpoint no_null_element (v : val) : bool :=
  match v with
  | VArr elems =>
      forallb (fun o => match o with
                        | Some VNull => false
                        | Some x => no_null_element x
                        | None => true
                        end) elems
  | VObj props =>
      forallb (fun p => match p with (_, x) => no_null_element x end) props
  | _ => true
  end.

(** ** Construction, building and sending *)

(** The members that every plain object inherits from [Object.prototype]. *)
Definition Object_prototype_names : list string :=
  ["constructor"; "__defineGetter__"; "__defineSetter__"; "hasOwnProperty";
   "__lookupGetter__"; "__lookupSetter__"; "isPrototypeOf"; "propertyIsEnumerable";
   "toString"; "valueOf"; "__proto__"; "toLocaleString"].

(** [object[key]] on a data object: the value of its property [key]. *)
Definition get_prop (key : string) (props : list (string * val)) : option val :=
  snd <$> List.find (fun p => String.eqb p.1 key) props.

(** [Object] called as a builder.  [new Object(data)] is [data] itself when
    [data] is an object and a fresh object without properties of its own
    otherwise, so what the constructor finds under [$type.options] is what
    the data object holds there: reading [options] of a missing [$type], or
    indexing a missing [options], is a TypeError.  Such a message has no
    [encodeAB] method, so calling it is a TypeError too. *)
Definition Object_constructor : Builder := fun data =>
  match data with
  | Some (VObj props) =>
      match get_prop "$type" props with
      | Some (VObj type_props) =>
          match get_prop "options" type_props with
          | None | Some VUndefined | Some VNull => Throw TypeError
          | Some (VObj option_props) =>
              Ok {| options := list_to_map option_props; encodeAB := Throw TypeError |}
          | Some _ => Ok {| options := ∅; encodeAB := Throw TypeError |}
          end
      | _ => Throw TypeError
      end
  | _ => Throw TypeError
  end.

(** [messages.messagesByName[name]].  The registry is a plain object, so a
    name it does not hold itself is looked up in [Object.prototype]: under
    "constructor" that finds [Object]; the other members found there are
    not constructors, and [new] on them is a TypeError.  [None] is
    [undefined]. *)
Definition messagesByName_get (messages : Messages) (name : string) : option Builder :=
  match messagesByName messages !! name with
  | Some Builder => Some Builder
  | None =>
      if String.eqb name "constructor" then Some Object_constructor
      else if bool_decide (name ∈ Object_prototype_names) then Some (fun _ => Throw TypeError)
      else None
  end.

(** [new BuiltMessage(messages, name, data)]: the caller's [data] object
    as the constructor leaves it, and the built message or the exception. *)
Definition BuiltMessage_constructor (messages : Messages) (name : string) (data : val)
    : val * result BuiltMessage :=
  match messagesByName_get messages name with
  | None => (data, Throw (MessageNameNotFound name))
  | Some Builder =>
      (* cleans up stuff from angular and remove "null" that crashes in builder *)
      let '(data, c) := cleanupInput data in
      match c with
      | Some e => (data, Throw e)
      | None =>
          match (if truthy data then Builder (Some data) else Builder None) with
          | Throw e => (data, Throw e)
          | Ok message =>
              let type :=
                match options message !! "(wire_type)" with
                | Some (VNum n) => VNum n
                | _ => default VUndefined (messageTypes messages !! ("MessageType_" +:+ name))
                end in
              (data, Ok {| message := message; type := type |})
          end
      end
  end.

(** Builds buffers to send. *)
Definition buildBuffers (messages : Messages) (name : string) (data : val)
    : val * result (list Uint8Array) :=
  let '(data, message) := BuiltMessage_constructor messages name data in
  (data, message ≫= encode).

Definition buildOne (messages : Messages) (name : string) (data : val)
    : val * result Uint8Array :=
  let '(data, message) := BuiltMessage_constructor messages name data in
  (data, message ≫= encodeOne).

Section sending.
(** The transport: its state, and a sender whose promise is settled
    (resolved or rejected) in the state it leaves. *)
Context {W : Type}.
Variable sender : Uint8Array -> W -> W * result unit.

(** Sends more buffers to device: [for (let buffer of buffers) await sender(buffer)]. *)
Fixpoint sendBuffers (buffers : list Uint8Array) (w : W) : W * result unit :=
  match buffers with
  | [] => (w, Ok tt)
  | buffer :: rest =>
      match sender buffer w with
      | (w', Ok _) => sendBuffers rest w'
      | (w', Throw e) => (w', Throw e)
      end
  end.

(** Sends message to device.  Resolves iff everything gets sent. *)
Definition buildAndSend (messages : Messages) (name : string) (data : val) (w : W)
    : val * W * result unit :=
  match buildBuffers messages name data with
  | (data, Throw e) => (data, w, Throw e)
  | (data, Ok buffers) =>
      let '(w', r) := sendBuffers buffers w in (data, w', r)
  end.
End sending.

(** A sender observed: every buffer handed to [sender] is appended to a
    log kept beside the state of the transport. *)
Definition recording {W : Type} (sender : Uint8Array -> W -> W * result unit)
    (buffer : Uint8Array) (lw : list Uint8Array * W) : (list Uint8Array * W) * result unit :=
  let '(w', r) := sender buffer lw.2 in
  ((lw.1 ++ [buffer], w'), r).

(** ** Reference notions used in the statements *)

(** The unsigned number whose big-endian bytes are [bs]. *)
Definition from_big_endian (bs : list byte) : Z :=
  fold_left (fun acc b => acc * 256 + b2z b) bs 0.

(** The [n] low bytes of [v], most significant first. *)
Fixpoint big_endian (n : nat) (v : Z) : list byte :=
  match n with
  | O => []
  | S n' => z2b (v / 256 ^ Z.of_nat n') :: big_endian n' v
  end.

(** An array element (or a hole) nested no deeper than [d]. *)
Definition depth_below (d : nat) (o : option val) : Prop :=
  match o with
  | Some x => (depth x <= d)%nat
  | None => True
  end.

(** A slice padded with zeros to the size of a chunk. *)
Definition padded (slice : Uint8Array) : Uint8Array :=
  slice ++ replicate (Z.to_nat BUFFER_SIZE - length slice) x00.

(** The [i]-th chunk of [bytes]: the slice [i*63 .. (i+1)*63), padded. *)
Definition chunk_at (bytes : Uint8Array) (i : nat) : Uint8Array :=
  padded (take (Z.to_nat BUFFER_SIZE) (drop (i * Z.to_nat BUFFER_SIZE) bytes)).

(** ** Example inputs *)

(** A message without options whose serialisation is empty. *)
Definition ping_message : Message := {| options := ∅; encodeAB := Ok [] |}.

(** A registry that knows the builder of [Ping] but has no entry
    [MessageType_Ping] in its table of types. *)
Definition ping_messages : Messages :=
  {| messagesByName := {[ "Ping" := fun _ => Ok ping_message ]};
     messageTypes := ∅ |}.

(** The same registry with the entry. *)
Definition ping_messages_typed : Messages :=
  {| messagesByName := {[ "Ping" := fun _ => Ok ping_message ]};
     messageTypes := {[ "MessageType_Ping" := VNum 1 ]} |}.

(** An object as angular leaves it: a [$$hashKey], a null, a nested
    object and an array. *)
Definition angular_data : val :=
  VObj [("$$hashKey", VStr "object:3"); ("address_n", VNull); ("coin_name", VStr "Bitcoin");
        ("inputs", VArr [Some (VObj [("$$hashKey", VStr "object:4"); ("amount", VNum 5);
                                      ("script", VUndefined)])])].

(** A transport that accepts the first [n] buffers it is given and
    rejects the next one; its state is the number still accepted. *)
Definition failing_sender (buffer : Uint8Array) (n : nat) : nat * result unit :=
  match n with
  | O => (O, Throw (ExternalError "device disconnected"))
  | S n' => (n', Ok tt)
  end.

(** A message whose type declares the option [(wire_type)], and a registry
    whose table of types has another number under its name. *)
Definition txack_message : Message :=
  {| options := {[ "(wire_type)" := VNum 22 ]}; encodeAB := Ok [x0a; x00] |}.

Definition txack_messages : Messages :=
  {| messagesByName := {[ "TxAckInput" := fun _ => Ok txack_message ]};
     messageTypes := {[ "MessageType_TxAckInput" := VNum 9 ]} |}.

(** A built message with the type 2 and a payload of 100 bytes. *)
Definition hundred_message : BuiltMessage :=
  {| message := {| options := ∅; encodeAB := Ok (replicate 100 xaa) |}; type := VNum 2 |}.

(** ** Bytes and 32-bit operators *)

(** A name the registry holds itself resolves to its builder. *)
Lemma messagesByName_get_own (messages : Messages) (name : string) (builder : Builder) :
  messagesByName messages !! name = Some builder ->
  messagesByName_get messages name = Some builder.
Proof. intros Hb. unfold messagesByName_get. rewrite Hb. reflexivity. Qed.

Lemma b2z_range (b : byte) : 0 <= b2z b < 256.
Proof.
  unfold b2z. pose proof (Byte.to_N_bounded b). lia.
Qed.

Lemma z2b_b2z (b : byte) : z2b (b2z b) = b.
Proof.
  unfold z2b. rewrite Z.mod_small by apply b2z_range.
  unfold b2z. rewrite N2Z.id, Byte.of_to_N. reflexivity.
Qed.

Lemma b2z_z2b (v : Z) : b2z (z2b v) = v mod 256.
Proof.
  unfold z2b, b2z.
  assert (Hr : 0 <= v mod 256 < 256) by (apply Z.mod_pos_bound; lia).
  destruct (Byte.of_N (Z.to_N (v mod 256))) as [b|] eqn:E; simpl.
  - apply Byte.to_of_N in E. rewrite E, Z2N.id; lia.
  - apply Byte.of_N_None_iff in E. lia.
Qed.

Lemma b2z_z2b_small (v : Z) : 0 <= v < 256 -> b2z (z2b v) = v.
Proof. intros. rewrite b2z_z2b. apply Z.mod_small. lia. Qed.

Lemma b2z_inj (a b : byte) : b2z a = b2z b -> a = b.
Proof. intros H. rewrite <- (z2b_b2z a), <- (z2b_b2z b), H. reflexivity. Qed.

Lemma z2b_mod (v : Z) : z2b (v mod 256) = z2b v.
Proof. unfold z2b. rewrite Z.mod_mod by lia. reflexivity. Qed.

Module JSFacts.
Import JS.

Lemma ToInt32_small (v : Z) : - 2 ^ 31 <= v < 2 ^ 31 -> ToInt32 v = v.
Proof. intros. unfold ToInt32. rewrite Z.mod_small; lia. Qed.

Lemma ToUint32_small (v : Z) : 0 <= v < 2 ^ 32 -> ToUint32 v = v.
Proof. intros. unfold ToUint32. apply Z.mod_small. lia. Qed.

(** [v | 0] differs from [v] by a multiple of 2^32. *)
Lemma ToInt32_congr (v : Z) : exists q, ToInt32 v = v + q * 2 ^ 32.
Proof.
  unfold ToInt32. exists (- ((v + 2 ^ 31) / 2 ^ 32)).
  pose proof (Z.div_mod (v + 2 ^ 31) (2 ^ 32)). lia.
Qed.

Lemma ToUint32_ToInt32 (v : Z) : ToUint32 (ToInt32 v) = ToUint32 v.
Proof.
  destruct (ToInt32_congr v) as [q ->]. unfold ToUint32.
  apply Z.mod_add. lia.
Qed.

(** Disjoint bit ranges: or is addition. *)
Lemma lor_high_low (hi lo k : Z) :
  0 <= k -> 0 <= lo < 2 ^ k -> Z.lor (hi * 2 ^ k) lo = hi * 2 ^ k + lo.
Proof.
  intros Hk Hlo. rewrite <- Z.add_lor_land.
  assert (Z.land (hi * 2 ^ k) lo = 0) as ->; [|lia].
  apply Z.bits_inj'. intros i Hi. rewrite Z.land_spec, Z.bits_0.
  destruct (Z.lt_ge_cases i k).
  - rewrite Z.mul_pow2_bits_low by lia. reflexivity.
  - assert (Z.testbit lo i = false) as ->; [|apply andb_false_r].
    rewrite <- (Z.mod_small lo (2 ^ k)) by lia.
    apply Z.mod_pow2_bits_high. lia.
Qed.

Lemma shl_small (a n : Z) :
  0 <= n < 32 -> - 2 ^ 31 <= a * 2 ^ n < 2 ^ 31 -> - 2 ^ 31 <= a < 2 ^ 31 ->
  shl a n = a * 2 ^ n.
Proof.
  intros Hn Hr Ha. unfold shl.
  rewrite (ToInt32_small a), (Z.mod_small n) by lia.
  rewrite Z.shiftl_mul_pow2 by lia. apply ToInt32_small. lia.
Qed.

Lemma bor_high_low (hi lo k : Z) :
  0 <= k -> 0 <= lo < 2 ^ k -> 0 <= hi -> hi * 2 ^ k + lo < 2 ^ 31 ->
  bor (hi * 2 ^ k) lo = hi * 2 ^ k + lo.
Proof.
  intros Hk Hlo Hhi Hr. unfold bor.
  assert (0 <= hi * 2 ^ k) by (apply Z.mul_nonneg_nonneg; lia).
  rewrite (ToInt32_small (hi * 2 ^ k)), (ToInt32_small lo) by lia.
  rewrite lor_high_low by lia. apply ToInt32_small. lia.
Qed.

(** [a & 255] is the low byte of [a], whatever its sign. *)
Lemma band_255 (a : Z) : band a 255 = a mod 256.
Proof.
  unfold band. rewrite (ToInt32_small 255) by lia.
  change 255 with (Z.ones 8). rewrite Z.land_ones by lia.
  destruct (ToInt32_congr a) as [q ->].
  replace (a + q * 2 ^ 32) with (a + (q * 2 ^ 24) * 2 ^ 8) by ring.
  rewrite Z.mod_add by lia.
  apply ToInt32_small. pose proof (Z.mod_pos_bound a 256). lia.
Qed.

Lemma ushr_small (a n : Z) : 0 <= a < 2 ^ 32 -> 0 <= n < 32 -> ushr a n = a / 2 ^ n.
Proof.
  intros. unfold ushr. rewrite ToUint32_small, (Z.mod_small n) by lia.
  apply Z.shiftr_div_pow2. lia.
Qed.

(** [(v & 0xFF00) >>> 8] is the second byte of [v]. *)
Lemma ushr_band_65280 (v : Z) : ushr (band v 65280) 8 = (v / 256) mod 256.
Proof.
  unfold band. rewrite (ToInt32_small 65280) by lia.
  set (x := Z.land (ToInt32 v) 65280).
  assert (Hx : x = x mod 2 ^ 16).
  { rewrite <- Z.land_ones by lia. unfold x.
    rewrite <- Z.land_assoc. reflexivity. }
  assert (0 <= x < 2 ^ 16) by (rewrite Hx; apply Z.mod_pos_bound; lia).
  rewrite ToInt32_small by lia. rewrite ushr_small by lia.
  rewrite <- Z.shiftr_div_pow2 by lia. unfold x. rewrite Z.shiftr_land.
  change (Z.shiftr 65280 8) with (Z.ones 8). rewrite Z.land_ones by lia.
  rewrite Z.shiftr_div_pow2 by lia.
  destruct (ToInt32_congr v) as [q ->].
  replace (v + q * 2 ^ 32) with (v + (q * 2 ^ 24) * 2 ^ 8) by ring.
  rewrite Z.div_add by lia.
  replace (v / 2 ^ 8 + q * 2 ^ 24) with (v / 2 ^ 8 + (q * 2 ^ 16) * 2 ^ 8) by ring.
  rewrite Z.mod_add by lia. reflexivity.
Qed.
End JSFacts.

(** ** The ByteBuffer methods, in closed form *)

Module ByteBufferFacts.
Import ByteBuffer.

Lemma get_range (bb : t) (i : Z) : 0 <= get bb i < 256.
Proof. apply b2z_range. Qed.

Lemma ensure_fits (n : Z) (bb : t) : offset bb + n <= capacity bb -> ensure n bb = bb.
Proof.
  intros H. unfold ensure.
  destruct (offset bb + n >? capacity bb) eqn:E; [lia | reflexivity].
Qed.

Lemma check_read_ok (n : Z) (bb : t) :
  0 <= offset bb -> offset bb + n <= capacity bb -> check_read n bb = Ok (tt, bb).
Proof.
  intros H0 H1. unfold check_read.
  destruct (offset bb <? 0) eqn:E0; [lia|].
  destruct (offset bb + n >? capacity bb) eqn:E1; [lia|]. reflexivity.
Qed.

Lemma check_read_underflow (n : Z) (bb : t) :
  capacity bb < offset bb + n -> check_read n bb = Throw RangeError.
Proof.
  intros H. unfold check_read.
  destruct (offset bb + n >? capacity bb) eqn:E1; [|lia].
  rewrite orb_true_r. reflexivity.
Qed.

Lemma check_write_ok (bb : t) :
  0 <= offset bb <= capacity bb -> check_write bb = Ok (tt, bb).
Proof.
  intros H. unfold check_write.
  destruct (offset bb <? 0) eqn:E0; [lia|].
  destruct (offset bb + 0 >? capacity bb) eqn:E1; [lia|]. reflexivity.
Qed.

(** The sign test of [readInt8] on a byte. *)
Lemma sign_bit (b : byte) : (JS.band (b2z b) 128 =? 128) = (128 <=? b2z b).
Proof. destruct b; reflexivity. Qed.

Lemma readByte_spec (bb : t) :
  0 <= offset bb -> offset bb + 1 <= capacity bb ->
  readByte bb =
    Ok (let v := get bb (offset bb) in if 128 <=? v then v - 256 else v, advance 1 bb).
Proof.
  intros H0 H1. unfold readByte, mbind, M_bind.
  rewrite check_read_ok by assumption. unfold act, get.
  rewrite sign_bit. cbv zeta. do 2 f_equal.
  destruct (128 <=? _); lia.
Qed.

Lemma readUint16_spec (bb : t) :
  0 <= offset bb -> offset bb + 2 <= capacity bb ->
  readUint16 bb =
    Ok (get bb (offset bb) * 256 + get bb (offset bb + 1), advance 2 bb).
Proof.
  intros H0 H1. unfold readUint16, mbind, M_bind.
  rewrite check_read_ok by assumption. unfold act. cbv zeta.
  pose proof (get_range bb (offset bb)). pose proof (get_range bb (offset bb + 1)).
  rewrite JSFacts.shl_small by lia.
  rewrite (JSFacts.bor_high_low _ _ 8) by lia.
  reflexivity.
Qed.

Lemma readUint32_spec (bb : t) :
  0 <= offset bb -> offset bb + 4 <= capacity bb ->
  readUint32 bb =
    Ok (((get bb (offset bb) * 256 + get bb (offset bb + 1)) * 256
         + get bb (offset bb + 2)) * 256 + get bb (offset bb + 3), advance 4 bb).
Proof.
  intros H0 H1. unfold readUint32, mbind, M_bind.
  rewrite check_read_ok by assumption. unfold act. cbv zeta.
  pose proof (get_range bb (offset bb)). pose proof (get_range bb (offset bb + 1)).
  pose proof (get_range bb (offset bb + 2)). pose proof (get_range bb (offset bb + 3)).
  rewrite (JSFacts.shl_small _ 16), (JSFacts.shl_small _ 8) by lia.
  rewrite (JSFacts.bor_high_low _ _ 16) by lia.
  replace (get bb (offset bb + 1) * 2 ^ 16 + get bb (offset bb + 2) * 2 ^ 8)
    with ((get bb (offset bb + 1) * 2 ^ 8 + get bb (offset bb + 2)) * 2 ^ 8) by ring.
  rewrite (JSFacts.bor_high_low _ _ 8) by lia.
  unfold JS.ushr, JS.shl. rewrite JSFacts.ToUint32_ToInt32.
  rewrite (JSFacts.ToInt32_small (get bb (offset bb))) by lia.
  change (24 mod 32) with 24. change (0 mod 32) with 0.
  rewrite Z.shiftl_mul_pow2, Z.shiftr_0_r by lia.
  rewrite JSFacts.ToUint32_small by lia.
  do 2 f_equal. ring.
Qed.

(** The byte stored for the bits [8k .. 8k+7] of a value truncated to 32 bits. *)
Lemma z2b_ToUint32_div (v k : Z) :
  0 <= k <= 3 -> z2b (JS.ToUint32 v / 2 ^ (8 * k)) = z2b (v / 2 ^ (8 * k)).
Proof.
  intros Hk. unfold JS.ToUint32.
  rewrite <- (z2b_mod (_ / _)), <- (z2b_mod (v / _)). f_equal.
  pose proof (Z.div_mod v (2 ^ 32) ltac:(lia)) as Hv.
  set (q := v / 2 ^ 32) in *. set (r := v mod 2 ^ 32) in *.
  rewrite Hv.
  assert (k = 0 \/ k = 1 \/ k = 2 \/ k = 3) as [-> | [-> | [-> | ->]]] by lia.
  - change (2 ^ (8 * 0)) with 1. rewrite !Z.div_1_r.
    replace (2 ^ 32 * q + r) with (r + (q * 2 ^ 24) * 256) by ring.
    rewrite Z.mod_add by lia. reflexivity.
  - change (8 * 1) with 8.
    replace (2 ^ 32 * q + r) with (r + (q * 2 ^ 24) * 2 ^ 8) by ring.
    rewrite Z.div_add by lia.
    replace (r / 2 ^ 8 + q * 2 ^ 24) with (r / 2 ^ 8 + (q * 2 ^ 16) * 256) by ring.
    rewrite Z.mod_add by lia. reflexivity.
  - change (8 * 2) with 16.
    replace (2 ^ 32 * q + r) with (r + (q * 2 ^ 16) * 2 ^ 16) by ring.
    rewrite Z.div_add by lia.
    replace (r / 2 ^ 16 + q * 2 ^ 16) with (r / 2 ^ 16 + (q * 2 ^ 8) * 256) by ring.
    rewrite Z.mod_add by lia. reflexivity.
  - change (8 * 3) with 24.
    replace (2 ^ 32 * q + r) with (r + (q * 2 ^ 8) * 2 ^ 24) by ring.
    rewrite Z.div_add by lia.
    replace (r / 2 ^ 24 + q * 2 ^ 8) with (r / 2 ^ 24 + q * 256) by ring.
    rewrite Z.mod_add by lia. reflexivity.
Qed.

Lemma z2b_ToInt32 (v : Z) : z2b (JS.ToInt32 v) = z2b v.
Proof.
  rewrite <- (z2b_mod (JS.ToInt32 v)), <- (z2b_mod v). f_equal.
  destruct (JSFacts.ToInt32_congr v) as [q ->].
  replace (v + q * 2 ^ 32) with (v + (q * 2 ^ 24) * 256) by ring.
  apply Z.mod_add. lia.
Qed.

Lemma writeByte_spec (v : Z) (bb : t) :
  0 <= offset bb -> offset bb + 1 <= capacity bb ->
  writeByte (VNum v) bb =
    Ok (tt, {| buffer := <[Z.to_nat (offset bb) := z2b v]> (buffer bb);
               offset := offset bb + 1; limit := limit bb |}).
Proof.
  intros H0 H1. unfold writeByte, mbind, M_bind. simpl.
  rewrite check_write_ok by lia. unfold act.
  rewrite ensure_fits by lia. unfold put, advance. simpl.
  rewrite z2b_ToInt32. reflexivity.
Qed.

Lemma writeUint16_spec (v : Z) (bb : t) :
  0 <= offset bb -> offset bb + 2 <= capacity bb ->
  writeUint16 (VNum v) bb =
    Ok (tt, {| buffer := <[Z.to_nat (offset bb + 1) := z2b v]>
                           (<[Z.to_nat (offset bb) := z2b (v / 256)]> (buffer bb));
               offset := offset bb + 2; limit := limit bb |}).
Proof.
  intros H0 H1. unfold writeUint16, mbind, M_bind. simpl.
  rewrite check_write_ok by lia. unfold act.
  rewrite ensure_fits by lia. unfold put, advance. simpl.
  rewrite JSFacts.ushr_band_65280, JSFacts.band_255, !z2b_mod.
  pose proof (z2b_ToUint32_div v 0) as E0. pose proof (z2b_ToUint32_div v 1) as E1.
  change (2 ^ (8 * 0)) with 1 in E0. rewrite !Z.div_1_r in E0.
  change (2 ^ (8 * 1)) with 256 in E1.
  rewrite E0, E1 by lia. reflexivity.
Qed.

Lemma writeUint32_spec (v : Z) (bb : t) :
  0 <= offset bb -> offset bb + 4 <= capacity bb ->
  writeUint32 (VNum v) bb =
    Ok (tt, {| buffer := <[Z.to_nat (offset bb + 3) := z2b v]>
                           (<[Z.to_nat (offset bb + 2) := z2b (v / 256)]>
                             (<[Z.to_nat (offset bb + 1) := z2b (v / 65536)]>
                               (<[Z.to_nat (offset bb) := z2b (v / 16777216)]> (buffer bb))));
               offset := offset bb + 4; limit := limit bb |}).
Proof.
  intros H0 H1. unfold writeUint32, mbind, M_bind. simpl.
  rewrite check_write_ok by lia. unfold act.
  rewrite ensure_fits by lia. unfold put, advance. simpl.
  rewrite !JSFacts.band_255, !z2b_mod.
  assert (Hu : 0 <= JS.ToUint32 v < 2 ^ 32) by (apply Z.mod_pos_bound; lia).
  rewrite !JSFacts.ushr_small by lia.
  pose proof (z2b_ToUint32_div v 0) as E0. pose proof (z2b_ToUint32_div v 1) as E1.
  pose proof (z2b_ToUint32_div v 2) as E2. pose proof (z2b_ToUint32_div v 3) as E3.
  change (2 ^ (8 * 0)) with 1 in E0. rewrite !Z.div_1_r in E0.
  change (2 ^ (8 * 1)) with (2 ^ 8) in E1. change (2 ^ (8 * 2)) with (2 ^ 16) in E2.
  change (2 ^ (8 * 3)) with (2 ^ 24) in E3.
  rewrite E0, E1, E2, E3 by lia. reflexivity.
Qed.

Lemma append_spec (source : Uint8Array) (bb : t) :
  0 <= offset bb -> offset bb + Z.of_nat (length source) <= capacity bb ->
  append source bb =
    Ok (tt, {| buffer := take (Z.to_nat (offset bb)) (buffer bb) ++ source
                         ++ drop (Z.to_nat (offset bb) + length source)%nat (buffer bb);
               offset := offset bb + Z.of_nat (length source); limit := limit bb |}).
Proof.
  intros H0 H1. unfold append, mbind, M_bind.
  rewrite check_write_ok by lia. unfold act.
  destruct (Z.of_nat (length source) <=? 0) eqn:E.
  - assert (source = []) as -> by (apply Z.leb_le in E; destruct source; [reflexivity | cbn [length] in E; lia]).
    simpl. rewrite Nat.add_0_r, take_drop, Z.add_0_r. destruct bb; reflexivity.
  - rewrite ensure_fits by lia. reflexivity.
Qed.
End ByteBufferFacts.

(** ** The header encoder *)

Lemma big_endian_2 (v : Z) : big_endian 2 v = [z2b (v / 256); z2b v].
Proof. simpl. rewrite Z.div_1_r. reflexivity. Qed.

Lemma big_endian_4 (v : Z) :
  big_endian 4 v = [z2b (v / 16777216); z2b (v / 65536); z2b (v / 256); z2b v].
Proof. simpl. rewrite Z.div_1_r. reflexivity. Qed.

Lemma new_spec (capacity : Z) :
  0 <= capacity < 2 ^ 31 ->
  ByteBuffer.new capacity
  = Ok {| ByteBuffer.buffer := new_Uint8Array capacity;
          ByteBuffer.offset := 0;
          ByteBuffer.limit := capacity |}.
Proof.
  intros H. unfold ByteBuffer.new. rewrite JSFacts.ToInt32_small by lia.
  rewrite (proj2 (Z.ltb_ge capacity 0)) by lia. reflexivity.
Qed.

Lemma new_header_room (h : nat) (n : nat) :
  Z.of_nat h + Z.of_nat n < 2 ^ 31 ->
  ByteBuffer.new (Z.of_nat h + Z.of_nat n)
  = Ok {| ByteBuffer.buffer := replicate h x00 ++ replicate n x00;
          ByteBuffer.offset := 0;
          ByteBuffer.limit := Z.of_nat h + Z.of_nat n |}.
Proof.
  intros H. rewrite new_spec by lia. unfold new_Uint8Array.
  rewrite <- Nat2Z.inj_add, Nat2Z.id, replicate_add. reflexivity.
Qed.

Ltac bb_side :=
  unfold ByteBuffer.capacity;
  cbn [ByteBuffer.buffer ByteBuffer.offset ByteBuffer.limit];
  rewrite ?length_insert; cbn [length app replicate];
  rewrite ?length_app, ?length_replicate; lia.

Ltac bb_step lem :=
  rewrite lem by bb_side;
  cbn [ByteBuffer.buffer ByteBuffer.offset ByteBuffer.limit].

Ltac eval_indices :=
  repeat match goal with
         | |- context [Z.to_nat ?e] =>
             let v := eval vm_compute in (Z.to_nat e) in
             change (Z.to_nat e) with v
         end.

Lemma _encodeLong_bytes (this : BuiltMessage) (t : Z) (payload : Uint8Array) (add : bool) :
  type this = VNum t ->
  encodeAB (message this) = Ok payload ->
  HEADER_SIZE + Z.of_nat (length payload) < 2 ^ 31 ->
  _encodeLong this add =
    Ok ((if add then [x23; x23] else []) ++ big_endian 2 t
        ++ big_endian 4 (Z.of_nat (length payload)) ++ payload).
Proof.
  intros Ht Hp Hsize. unfold _encodeLong. rewrite Hp, Ht.
  cbn [mbind result_bind]. rewrite big_endian_2, big_endian_4.
  change HEADER_SIZE with (Z.of_nat 8) in Hsize.
  destruct add.
  - change HEADER_SIZE with (Z.of_nat 8). rewrite new_header_room by lia.
    cbn [mbind result_bind].
    unfold mbind at 2 3 4 5. unfold ByteBuffer.M_bind.
    cbn [replicate app].
    bb_step ByteBufferFacts.writeByte_spec.
    bb_step ByteBufferFacts.writeByte_spec.
    bb_step ByteBufferFacts.writeUint16_spec.
    bb_step ByteBufferFacts.writeUint32_spec.
    bb_step ByteBufferFacts.append_spec.
    cbn [mbind result_bind mret result_ret ByteBuffer.buffer].
    eval_indices. cbn [insert list_insert take drop Nat.add app].
    rewrite drop_replicate, Nat.sub_diag. cbn [replicate]. rewrite app_nil_r.
    reflexivity.
  - change (HEADER_SIZE - 2) with (Z.of_nat 6). rewrite new_header_room by lia.
    cbn [mbind result_bind].
    unfold mbind at 2 3 4. unfold ByteBuffer.M_bind.
    cbn [replicate app]. cbn [mret ByteBuffer.M_ret].
    bb_step ByteBufferFacts.writeUint16_spec.
    bb_step ByteBufferFacts.writeUint32_spec.
    bb_step ByteBufferFacts.append_spec.
    cbn [mbind result_bind mret result_ret ByteBuffer.buffer].
    eval_indices. cbn [insert list_insert take drop Nat.add app].
    rewrite drop_replicate, Nat.sub_diag. cbn [replicate]. rewrite app_nil_r.
    reflexivity.
Qed.

(** Big-endian bytes and the number they denote. *)

Lemma fold_big_endian (bs : list byte) (acc : Z) :
  fold_left (fun acc b => acc * 256 + b2z b) bs acc
  = acc * 256 ^ Z.of_nat (length bs) + from_big_endian bs.
Proof.
  unfold from_big_endian. revert acc.
  induction bs as [|b bs IH]; intros acc.
  - simpl. lia.
  - cbn [fold_left length]. rewrite IH, (IH (0 * 256 + b2z b)).
    rewrite Nat2Z.inj_succ, Z.pow_succ_r by lia. ring.
Qed.

Lemma from_big_endian_cons (b : byte) (bs : list byte) :
  from_big_endian (b :: bs) = b2z b * 256 ^ Z.of_nat (length bs) + from_big_endian bs.
Proof.
  unfold from_big_endian at 1. cbn [fold_left]. rewrite fold_big_endian. ring.
Qed.

Lemma length_big_endian (n : nat) (v : Z) : length (big_endian n v) = n.
Proof. induction n; simpl; congruence. Qed.

Lemma from_big_endian_big_endian (n : nat) (v : Z) :
  from_big_endian (big_endian n v) = v mod 256 ^ Z.of_nat n.
Proof.
  induction n as [|n IH].
  - simpl. rewrite Z.mod_1_r. reflexivity.
  - cbn [big_endian]. rewrite from_big_endian_cons, IH, length_big_endian, b2z_z2b.
    rewrite Nat2Z.inj_succ, Z.pow_succ_r by lia.
    assert (0 < 256 ^ Z.of_nat n) by (apply Z.pow_pos_nonneg; lia).
    rewrite (Z.mul_comm 256), Z.rem_mul_r by lia. ring.
Qed.

Lemma from_big_endian_range (bs : list byte) :
  0 <= from_big_endian bs < 256 ^ Z.of_nat (length bs).
Proof.
  induction bs as [|b bs IH].
  - simpl. unfold from_big_endian. simpl. lia.
  - rewrite from_big_endian_cons. cbn [length].
    rewrite Nat2Z.inj_succ, Z.pow_succ_r by lia.
    pose proof (b2z_range b). nia.
Qed.

(** ** The header decoder, in closed form *)

Lemma readHeader_spec (buf : Uint8Array) (lim : Z) :
  (6 <= length buf)%nat ->
  readHeader (ByteBuffer.mk buf 0 lim)
  = Ok (Header.mk (from_big_endian (take 2 buf)) (from_big_endian (take 4 (drop 2 buf))),
        ByteBuffer.mk buf 6 lim).
Proof.
  intros Hlen.
  destruct buf as [|b0 [|b1 [|b2 [|b3 [|b4 [|b5 rest]]]]]]; cbn [length] in Hlen; try lia.
  unfold readHeader, mbind, ByteBuffer.M_bind.
  bb_step ByteBufferFacts.readUint16_spec.
  rewrite ByteBufferFacts.readUint32_spec by (unfold ByteBuffer.advance; bb_side).
  unfold ByteBuffer.advance, ByteBuffer.get, mret, ByteBuffer.M_ret.
  cbn [ByteBuffer.buffer ByteBuffer.offset ByteBuffer.limit].
  eval_indices. cbn [lookup list_lookup default from_option id take drop].
  unfold from_big_endian. cbn [fold_left].
  do 3 f_equal; ring.
Qed.

Lemma readHeaderChunked_spec (buf : Uint8Array) (lim : Z) :
  (8 <= length buf)%nat ->
  readHeaderChunked (ByteBuffer.mk buf 0 lim)
  = Ok (HeaderChunked.mk
          (let v := b2z (default x00 (buf !! 0%nat)) in if 128 <=? v then v - 256 else v)
          (let v := b2z (default x00 (buf !! 1%nat)) in if 128 <=? v then v - 256 else v)
          (from_big_endian (take 2 (drop 2 buf)))
          (from_big_endian (take 4 (drop 4 buf))),
        ByteBuffer.mk buf 8 lim).
Proof.
  intros Hlen.
  destruct buf as [|b0 [|b1 [|b2 [|b3 [|b4 [|b5 [|b6 [|b7 rest]]]]]]]];
    cbn [length] in Hlen; try lia.
  unfold readHeaderChunked, mbind, ByteBuffer.M_bind.
  bb_step ByteBufferFacts.readByte_spec.
  rewrite ByteBufferFacts.readByte_spec by (unfold ByteBuffer.advance; bb_side).
  rewrite ByteBufferFacts.readUint16_spec by (unfold ByteBuffer.advance; bb_side).
  rewrite ByteBufferFacts.readUint32_spec by (unfold ByteBuffer.advance; bb_side).
  unfold ByteBuffer.advance, ByteBuffer.get, mret, ByteBuffer.M_ret.
  cbn [ByteBuffer.buffer ByteBuffer.offset ByteBuffer.limit].
  eval_indices. cbn [lookup list_lookup default from_option id take drop].
  unfold from_big_endian. cbn [fold_left].
  do 3 f_equal; ring.
Qed.

(** A byte read by [readByte] equals [MESSAGE_HEADER_BYTE] exactly when it is 0x23. *)
Lemma sharp_iff (b : byte) :
  ((if 128 <=? b2z b then b2z b - 256 else b2z b) =? MESSAGE_HEADER_BYTE) = true
  <-> b = x23.
Proof.
  split.
  - intros H. apply Z.eqb_eq in H. apply b2z_inj.
    pose proof (b2z_range b). change (b2z x23) with 35.
    unfold MESSAGE_HEADER_BYTE in H.
    destruct (128 <=? b2z b); lia.
  - intros ->. reflexivity.
Qed.

(** ** The decoder: claims *)

Lemma wrap_eq (bytes : Uint8Array) :
  ByteBuffer.wrap bytes = ByteBuffer.mk bytes 0 (Z.of_nat (length bytes)).
Proof. reflexivity. Qed.

Lemma concat_one (data : Uint8Array) :
  Z.of_nat (length data) < 2 ^ 31 ->
  ByteBuffer.concat [data] = Ok (ByteBuffer.mk data 0 (Z.of_nat (length data))).
Proof.
  intros H. unfold ByteBuffer.concat. cbn [List.concat]. rewrite app_nil_r.
  rewrite new_spec by lia. cbn [mbind result_bind ByteBuffer.buffer].
  unfold new_Uint8Array. rewrite length_replicate, Nat2Z.id.
  rewrite take_ge, drop_ge, app_nil_r by (rewrite ?length_replicate; lia).
  reflexivity.
Qed.

(** C7: on an input of at least 8 bytes whose first two bytes are both
    0x23, [decodeChunked] succeeds; it returns the typeId read big-endian
    from bytes 2-3, the length read big-endian from bytes 4-7, and the
    ByteBuffer over the input with its cursor at offset 8, the first
    payload byte. *)
Theorem decodeChunked_valid_header (bytes : Uint8Array) :
  (8 <= length bytes)%nat ->
  bytes !! 0%nat = Some x23 ->
  bytes !! 1%nat = Some x23 ->
  decodeChunked bytes
  = Ok (DecodedChunked.mk
          (from_big_endian (take 4 (drop 4 bytes)))
          (from_big_endian (take 2 (drop 2 bytes)))
          (ByteBuffer.mk bytes 8 (Z.of_nat (length bytes)))).
Proof.
  intros Hlen H0 H1. unfold decodeChunked. rewrite wrap_eq.
  rewrite readHeaderChunked_spec by assumption.
  cbn [mbind result_bind HeaderChunked.sharp1 HeaderChunked.sharp2
       HeaderChunked.typeId HeaderChunked.length].
  rewrite H0, H1. reflexivity.
Qed.

Lemma decodeChunked_valid_header_witness :
  decodeChunked [x23; x23; x00; x01; x00; x00; x01; x05; xaa]
  = Ok (DecodedChunked.mk 261 1
          (ByteBuffer.mk [x23; x23; x00; x01; x00; x00; x01; x05; xaa] 8 9)).
Proof.
  apply (decodeChunked_valid_header [x23; x23; x00; x01; x00; x00; x01; x05; xaa]).
  - simpl. lia.
  - reflexivity.
  - reflexivity.
Defined.

(** C3: [decodeChunked] rejects a wrong sentinel.  On every input that
    carries the 8 header bytes and in which byte 0 or byte 1 differs from
    0x23, it throws the header-signature error and returns no result,
    whatever the typeId and length bytes are. *)
Theorem decodeChunked_wrong_sentinel (bytes : Uint8Array) :
  (8 <= length bytes)%nat ->
  bytes !! 0%nat <> Some x23 \/ bytes !! 1%nat <> Some x23 ->
  decodeChunked bytes = Throw HeaderSignatureError.
Proof.
  intros Hlen Hs. unfold decodeChunked. rewrite wrap_eq.
  rewrite readHeaderChunked_spec by assumption.
  cbn [mbind result_bind HeaderChunked.sharp1 HeaderChunked.sharp2
       HeaderChunked.typeId HeaderChunked.length].
  destruct bytes as [|b0 [|b1 rest]]; cbn [length] in Hlen; try lia.
  cbn [lookup list_lookup default from_option id] in *.
  pose proof (sharp_iff b0) as S0. pose proof (sharp_iff b1) as S1.
  destruct ((if 128 <=? b2z b0 then _ else _) =? MESSAGE_HEADER_BYTE);
    [|reflexivity].
  destruct ((if 128 <=? b2z b1 then _ else _) =? MESSAGE_HEADER_BYTE);
    [|reflexivity].
  exfalso. destruct Hs as [Hs | Hs]; apply Hs; f_equal; [apply S0 | apply S1]; reflexivity.
Qed.

Lemma decodeChunked_wrong_sentinel_witness :
  decodeChunked [x23; x24; x00; x01; x00; x00; x00; x05] = Throw HeaderSignatureError.
Proof.
  apply (decodeChunked_wrong_sentinel [x23; x24; x00; x01; x00; x00; x00; x05]).
  - simpl. lia.
  - right. discriminate.
Defined.

(** C9: on every input shorter than 8 bytes [decodeChunked] throws the
    buffer's RangeError (a read past the end) and not the
    header-signature error, also when the bytes present are not 0x23:
    the sentinel is compared only after all 8 header bytes are read. *)
Theorem decodeChunked_underflow (bytes : Uint8Array) :
  (length bytes < 8)%nat ->
  decodeChunked bytes = Throw RangeError
  /\ decodeChunked bytes <> Throw HeaderSignatureError.
Proof.
  intros Hlen.
  assert (E : decodeChunked bytes = Throw RangeError); [|rewrite E; split; [reflexivity | discriminate]].
  destruct bytes as [|b0 [|b1 [|b2 [|b3 [|b4 [|b5 [|b6 [|b7 rest]]]]]]]];
    cbn [length] in Hlen; try lia; reflexivity.
Qed.

Lemma decodeChunked_underflow_witness :
  decodeChunked [x24; x24; x00] = Throw RangeError
  /\ decodeChunked [x24; x24; x00] <> Throw HeaderSignatureError.
Proof.
  apply (decodeChunked_underflow [x24; x24; x00]). simpl. lia.
Defined.

(** C4, as stated, fails: [decode] does not hand back the input buffer. *)
Lemma decode_not_whole_buffer :
  decode [x00; x01; x00; x00; x00; x01; xaa] = Ok (Decoded.mk 1 [xaa])
  /\ decode [x00; x01; x00; x00; x00; x01; xaa]
     <> Ok (Decoded.mk 1 [x00; x01; x00; x00; x00; x01; xaa]).
Proof. split; [reflexivity | discriminate]. Qed.

(** C4, amended: for every input of at least 6 bytes (and of fewer than
    2^31, the largest capacity of a ByteBuffer), [decode] returns the
    typeId read big-endian from the first two bytes together with the bytes
    of the input that follow the 6-byte header (the contents of the
    ByteBuffer from its cursor on), not the whole input. *)
Theorem decode_returns_payload (data : Uint8Array) :
  (6 <= length data)%nat ->
  Z.of_nat (length data) < 2 ^ 31 ->
  decode data = Ok (Decoded.mk (from_big_endian (take 2 data)) (drop 6 data)).
Proof.
  intros Hlen Hcap. unfold decode. rewrite concat_one by assumption.
  cbn [mbind result_bind].
  rewrite readHeader_spec by assumption.
  cbn [mbind result_bind Header.typeId].
  unfold ByteBuffer.toBuffer, ByteBuffer.capacity.
  cbn [ByteBuffer.buffer ByteBuffer.offset ByteBuffer.limit].
  destruct (Z.of_nat (length data) >? Z.of_nat (length data)) eqn:E; [lia|].
  destruct (6 >? Z.of_nat (length data)) eqn:E'; [lia|].
  cbn [orb andb Z.ltb Z.eqb Z.compare mbind result_bind mret result_ret].
  unfold JS.subarray, JS.relative_index.
  destruct (Z.of_nat (length data) <? 0) eqn:E''; [lia|].
  cbn [Z.ltb Z.compare].
  rewrite Z.min_id, Z.min_l by lia.
  change (Z.to_nat 6) with 6%nat.
  rewrite (take_ge (drop 6 data)); [reflexivity|]. rewrite length_drop. lia.
Qed.

Lemma decode_returns_payload_witness :
  decode [x00; x01; x00; x00; x00; x01; xaa] = Ok (Decoded.mk 1 [xaa]).
Proof.
  apply (decode_returns_payload [x00; x01; x00; x00; x00; x01; xaa]).
  - simpl. lia.
  - vm_compute. reflexivity.
Defined.


(** ** The encoder: claims *)

(** C5: for a typeId (an unsigned 16-bit value) and a payload (that with
    its header fits a ByteBuffer, whose capacity is below 2^31),
    [_encodeLong] returns a buffer of exactly headerSize + payload.length
    bytes, headerSize being 8 with the sentinel and 6 without; it holds,
    in order, the two 0x23 bytes (only if requested), the typeId on two
    bytes big-endian, the length of the payload on four bytes big-endian,
    then the payload verbatim; the length field denotes payload.length. *)
Theorem encodeLong_layout (this : BuiltMessage) (typeId : Z) (payload : Uint8Array)
    (addTrezorHeaders : bool) :
  type this = VNum typeId ->
  encodeAB (message this) = Ok payload ->
  0 <= typeId <= 65535 ->
  HEADER_SIZE + Z.of_nat (length payload) < 2 ^ 31 ->
  let headerSize := if addTrezorHeaders then 8 else 6 in
  let sentinel := if addTrezorHeaders then [x23; x23] else [] in
  exists typeBytes lengthBytes,
    _encodeLong this addTrezorHeaders = Ok (sentinel ++ typeBytes ++ lengthBytes ++ payload)
    /\ Z.of_nat (length (sentinel ++ typeBytes ++ lengthBytes ++ payload))
       = headerSize + Z.of_nat (length payload)
    /\ length typeBytes = 2%nat /\ from_big_endian typeBytes = typeId
    /\ length lengthBytes = 4%nat
    /\ from_big_endian lengthBytes = Z.of_nat (length payload).
Proof.
  intros Ht Hp Hrange Hlen headerSize sentinel.
  exists (big_endian 2 typeId), (big_endian 4 (Z.of_nat (length payload))).
  split; [apply _encodeLong_bytes; assumption|].
  rewrite !from_big_endian_big_endian, !length_app, !length_big_endian.
  repeat split.
  - unfold sentinel, headerSize. destruct addTrezorHeaders; cbn [length]; lia.
  - apply Z.mod_small. change (256 ^ Z.of_nat 2) with 65536. lia.
  - apply Z.mod_small. change (256 ^ Z.of_nat 4) with (2 ^ 32).
    change HEADER_SIZE with 8 in Hlen. lia.
Qed.

Lemma encodeLong_layout_witness :
  let this := {| message := {| options := ∅; encodeAB := Ok (replicate 100 xaa) |};
                 type := VNum 2 |} in
  exists typeBytes lengthBytes,
    _encodeLong this true = Ok ([x23; x23] ++ typeBytes ++ lengthBytes ++ replicate 100 xaa)
    /\ Z.of_nat (length ([x23; x23] ++ typeBytes ++ lengthBytes ++ replicate 100 xaa))
       = 8 + Z.of_nat (length (replicate 100 xaa))
    /\ length typeBytes = 2%nat /\ from_big_endian typeBytes = 2
    /\ length lengthBytes = 4%nat
    /\ from_big_endian lengthBytes = Z.of_nat (length (replicate 100 xaa)).
Proof.
  intros this.
  apply (encodeLong_layout this 2 (replicate 100 xaa) true).
  - reflexivity.
  - reflexivity.
  - lia.
  - vm_compute. reflexivity.
Defined.

(** C1: for a typeId in [0, 65535] and a payload of length L (L = 0
    included; with its header it fits a ByteBuffer, whose capacity is below
    2^31), reading the bare header from the short-form encoding (the
    buffer of [encodeOne]) yields typeId and L, leaves the cursor at
    offset 6, and the bytes after the 6 header bytes are the payload. *)
Theorem roundtrip_bare_header (this : BuiltMessage) (typeId : Z) (payload : Uint8Array) :
  type this = VNum typeId ->
  encodeAB (message this) = Ok payload ->
  0 <= typeId <= 65535 ->
  HEADER_SIZE + Z.of_nat (length payload) < 2 ^ 31 ->
  exists encoded,
    encodeOne this = Ok encoded
    /\ (ByteBuffer.concat [encoded] ≫= readHeader)
       = Ok (Header.mk typeId (Z.of_nat (length payload)),
             ByteBuffer.mk encoded 6 (Z.of_nat (length encoded)))
    /\ drop 6 encoded = payload.
Proof.
  intros Ht Hp Hrange Hlen.
  eexists. split; [apply _encodeLong_bytes; eassumption|].
  cbn [app]. change HEADER_SIZE with 8 in Hlen.
  rewrite concat_one by (rewrite !length_app, !length_big_endian; lia).
  cbn [mbind result_bind].
  set (L := Z.of_nat (length payload)) in *.
  assert (E2 : from_big_endian (big_endian 2 typeId) = typeId).
  { rewrite from_big_endian_big_endian. apply Z.mod_small.
    change (256 ^ Z.of_nat 2) with 65536. lia. }
  assert (E4 : from_big_endian (big_endian 4 L) = L).
  { rewrite from_big_endian_big_endian. apply Z.mod_small.
    change (256 ^ Z.of_nat 4) with (2 ^ 32). lia. }
  split.
  - rewrite readHeader_spec by (rewrite !length_app, !length_big_endian; lia).
    rewrite take_app_length' by (symmetry; apply length_big_endian).
    rewrite drop_app_length' by (symmetry; apply length_big_endian).
    rewrite take_app_length' by (symmetry; apply length_big_endian).
    rewrite E2, E4. reflexivity.
  - rewrite app_assoc. apply drop_app_length'.
    rewrite length_app, !length_big_endian. reflexivity.
Qed.

Lemma roundtrip_bare_header_witness :
  let this := {| message := {| options := ∅; encodeAB := Ok [] |}; type := VNum 65535 |} in
  exists encoded,
    encodeOne this = Ok encoded
    /\ (ByteBuffer.concat [encoded] ≫= readHeader)
       = Ok (Header.mk 65535 (Z.of_nat (length (@nil byte))),
             ByteBuffer.mk encoded 6 (Z.of_nat (length encoded)))
    /\ drop 6 encoded = [].
Proof.
  intros this.
  apply (roundtrip_bare_header this 65535 []).
  - reflexivity.
  - reflexivity.
  - lia.
  - vm_compute. reflexivity.
Defined.

(** The splitter *)

Lemma subarray_chunk (bytes : Uint8Array) (k : nat) :
  JS.subarray bytes (Z.of_nat k * BUFFER_SIZE) ((Z.of_nat k + 1) * BUFFER_SIZE)
  = take 63 (drop (k * 63) bytes).
Proof.
  unfold JS.subarray, JS.relative_index, BUFFER_SIZE.
  rewrite (proj2 (Z.ltb_ge (Z.of_nat k * 63) 0)) by lia.
  rewrite (proj2 (Z.ltb_ge ((Z.of_nat k + 1) * 63) 0)) by lia.
  set (len := length bytes).
  destruct (Nat.le_gt_cases len (k * 63)) as [Hge | Hlt].
  - rewrite !Z.min_r by lia. rewrite Z.sub_diag. cbn [Z.to_nat take].
    rewrite (drop_ge bytes (k * 63)) by (fold len; lia). reflexivity.
  - rewrite (Z.min_l (Z.of_nat k * 63)) by lia.
    replace (Z.to_nat (Z.of_nat k * 63)) with (k * 63)%nat by lia.
    destruct (Nat.le_gt_cases len (k * 63 + 63)) as [Hshort | Hlong].
    + rewrite Z.min_r by lia.
      rewrite !take_ge; [reflexivity | |]; rewrite length_drop; fold len; lia.
    + rewrite Z.min_l by lia. f_equal. lia.
Qed.

Lemma length_padded (slice : Uint8Array) :
  (length slice <= 63)%nat -> length (padded slice) = 63%nat.
Proof.
  intros H. unfold padded. rewrite length_app, length_replicate.
  change (Z.to_nat BUFFER_SIZE) with 63%nat. lia.
Qed.

Lemma set_padded (slice : Uint8Array) :
  (length slice <= 63)%nat ->
  Uint8Array_set (new_Uint8Array BUFFER_SIZE) slice = Ok (padded slice).
Proof.
  intros H. unfold Uint8Array_set, new_Uint8Array, padded.
  rewrite length_replicate. change (Z.to_nat BUFFER_SIZE) with 63%nat.
  destruct (63 <? length slice)%nat eqn:E; [apply Nat.ltb_lt in E; lia|].
  rewrite drop_replicate. reflexivity.
Qed.

Lemma length_chunk_at (bytes : Uint8Array) (i : nat) : length (chunk_at bytes i) = 63%nat.
Proof.
  apply length_padded. change (Z.to_nat BUFFER_SIZE) with 63%nat.
  rewrite length_take. lia.
Qed.

Lemma encode_loop_spec (bytes : Uint8Array) (n k : nat) (acc : list Uint8Array) :
  encode_loop bytes BUFFER_SIZE n (Z.of_nat k) acc
  = Ok (acc ++ (chunk_at bytes <$> seq k n)).
Proof.
  revert k acc. induction n as [|n IH]; intros k acc.
  - simpl. rewrite app_nil_r. reflexivity.
  - cbn [encode_loop]. rewrite subarray_chunk.
    rewrite set_padded by (rewrite length_take; lia).
    cbn [mbind result_bind].
    replace (Z.of_nat k + 1) with (Z.of_nat (S k)) by lia.
    rewrite IH. cbn [seq]. rewrite fmap_cons, <- app_assoc. reflexivity.
Qed.

Lemma splitIntoChunks_spec (bytes : Uint8Array) :
  splitIntoChunks bytes
  = Ok (chunk_at bytes
          <$> seq 0 (Z.to_nat ((Z.of_nat (length bytes) - 1) / BUFFER_SIZE + 1))).
Proof.
  unfold splitIntoChunks. change 0 with (Z.of_nat 0) at 1.
  rewrite encode_loop_spec. reflexivity.
Qed.

Lemma chunk_at_shift (bytes : Uint8Array) (i : nat) :
  chunk_at bytes (S i) = chunk_at (drop 63 bytes) i.
Proof.
  unfold chunk_at. change (Z.to_nat BUFFER_SIZE) with 63%nat.
  rewrite drop_drop. do 3 f_equal; lia.
Qed.

(** The chunks laid end to end are the bytes followed by the zero padding. *)
Lemma concat_chunks (c : nat) (bytes : Uint8Array) :
  (length bytes <= c * 63)%nat ->
  (c = 0 \/ (c - 1) * 63 < length bytes)%nat ->
  concat (chunk_at bytes <$> seq 0 c) = bytes ++ replicate (c * 63 - length bytes) x00.
Proof.
  revert bytes. induction c as [|c IH]; intros bytes Hle Hgt.
  - destruct bytes; [reflexivity | cbn [length] in Hle; lia].
  - cbn [seq]. rewrite fmap_cons. cbn [concat]. rewrite <- fmap_S_seq, <- list_fmap_compose.
    rewrite (list_fmap_ext _ (chunk_at (drop 63 bytes)))
      by (intros; apply chunk_at_shift).
    destruct (Nat.le_gt_cases 63 (length bytes)) as [Hfull | Hshort].
    + rewrite IH by (rewrite length_drop; lia).
      unfold chunk_at, padded. change (Z.to_nat BUFFER_SIZE) with 63%nat.
      cbn [Nat.mul]. rewrite drop_0, length_take, Nat.min_l by lia.
      cbn [Nat.sub replicate]. rewrite app_nil_r, app_assoc, take_drop, length_drop.
      do 2 f_equal. lia.
    + assert (c = 0%nat) as -> by lia.
      cbn [seq fmap list_fmap concat]. rewrite app_nil_r.
      unfold chunk_at, padded. change (Z.to_nat BUFFER_SIZE) with 63%nat.
      cbn [Nat.mul]. rewrite drop_0, take_ge by lia. reflexivity.
Qed.

(** C2: for bytes of length n > 0 the splitter of [encode] succeeds with
    exactly floor((n - 1) / 63) + 1 = ceil(n / 63) chunks of 63 bytes each;
    chunk i is the slice [63 i, 63 (i + 1)) of the bytes, in ascending
    order of i; the chunks laid end to end and cut at n are the bytes, and
    all that follows position n is zero. *)
Theorem splitIntoChunks_correct (bytes : Uint8Array) :
  (0 < length bytes)%nat ->
  let n := length bytes in
  exists chunks,
    splitIntoChunks bytes = Ok chunks
    /\ (forall this, _encodeLong this true = Ok bytes -> encode this = Ok chunks)
    /\ Z.of_nat (length chunks) = (Z.of_nat n - 1) / 63 + 1
    /\ (63 * (Z.of_nat (length chunks) - 1) < Z.of_nat n <= 63 * Z.of_nat (length chunks))
    /\ Forall (fun chunk => length chunk = 63%nat) chunks
    /\ take n (concat chunks) = bytes
    /\ drop n (concat chunks) = replicate (length chunks * 63 - n) x00
    /\ (forall i, (i < length chunks)%nat -> chunks !! i = Some (chunk_at bytes i)).
Proof.
  intros Hpos n. eexists. split; [apply splitIntoChunks_spec|].
  fold n. change BUFFER_SIZE with 63.
  set (count := Z.to_nat ((Z.of_nat n - 1) / 63 + 1)).
  pose proof (Z.div_mod (Z.of_nat n - 1) 63 ltac:(lia)) as Hdm.
  pose proof (Z.mod_pos_bound (Z.of_nat n - 1) 63 ltac:(lia)) as Hmod.
  assert (Hq : 0 <= (Z.of_nat n - 1) / 63) by (apply Z.div_pos; lia).
  assert (Hcount : Z.of_nat count = (Z.of_nat n - 1) / 63 + 1) by (unfold count; lia).
  assert (Hlen : length (chunk_at bytes <$> seq 0 count) = count)
    by (rewrite length_fmap, length_seq; reflexivity).
  assert (Hcat : concat (chunk_at bytes <$> seq 0 count)
                 = bytes ++ replicate (count * 63 - n) x00)
    by (apply concat_chunks; fold n; lia).
  rewrite Hlen, Hcat. repeat split.
  - intros this Henc. unfold encode. rewrite Henc. cbn [mbind result_bind].
    apply splitIntoChunks_spec.
  - exact Hcount.
  - lia.
  - lia.
  - apply Forall_forall. intros chunk Hin. apply list_elem_of_fmap in Hin.
    destruct Hin as (i & -> & _). apply length_chunk_at.
  - apply take_app_length.
  - apply drop_app_length.
  - intros i Hi. rewrite list_lookup_fmap, lookup_seq_lt by assumption. reflexivity.
Qed.

Lemma splitIntoChunks_correct_witness :
  let bytes := [x23; x23; x00; x02; x00; x00; x00; x64] ++ replicate 100 xaa in
  exists chunks,
    splitIntoChunks bytes = Ok chunks
    /\ (forall this, _encodeLong this true = Ok bytes -> encode this = Ok chunks)
    /\ Z.of_nat (length chunks) = (Z.of_nat (length bytes) - 1) / 63 + 1
    /\ (63 * (Z.of_nat (length chunks) - 1) < Z.of_nat (length bytes)
        <= 63 * Z.of_nat (length chunks))
    /\ Forall (fun chunk => length chunk = 63%nat) chunks
    /\ take (length bytes) (concat chunks) = bytes
    /\ drop (length bytes) (concat chunks) = replicate (length chunks * 63 - length bytes) x00
    /\ (forall i, (i < length chunks)%nat -> chunks !! i = Some (chunk_at bytes i)).
Proof.
  intros bytes.
  apply (splitIntoChunks_correct bytes). vm_compute. lia.
Defined.


(** ** Resolving the type of a message *)

Lemma encodeLong_undefined_type (this : BuiltMessage) (payload : Uint8Array) (add : bool) :
  type this = VUndefined ->
  encodeAB (message this) = Ok payload ->
  HEADER_SIZE + Z.of_nat (length payload) < 2 ^ 31 ->
  _encodeLong this add = Throw TypeError.
Proof.
  intros Ht Hp Hsize. unfold _encodeLong. rewrite Hp, Ht. cbn [mbind result_bind].
  change HEADER_SIZE with (Z.of_nat 8) in Hsize.
  destruct add.
  2: { change (HEADER_SIZE - 2) with (Z.of_nat 6). rewrite new_header_room by lia.
       reflexivity. }
  change HEADER_SIZE with (Z.of_nat 8). rewrite new_header_room by lia.
  cbn [mbind result_bind].
  unfold mbind at 2 3 4 5. unfold ByteBuffer.M_bind.
  cbn [replicate app].
  bb_step ByteBufferFacts.writeByte_spec.
  bb_step ByteBufferFacts.writeByte_spec.
  reflexivity.
Qed.

Lemma encodeLong_undefined_type_throws (this : BuiltMessage) (add : bool) :
  type this = VUndefined -> exists e, _encodeLong this add = Throw e.
Proof.
  intros Ht. unfold _encodeLong. rewrite Ht.
  destruct (encodeAB (message this)) as [payload|e]; cbn [mbind result_bind];
    [|eexists; reflexivity].
  destruct (ByteBuffer.new _) as [bb|e]; cbn [mbind result_bind];
    [|eexists; reflexivity].
  destruct add.
  - unfold mbind at 2 3 4 5. unfold ByteBuffer.M_bind.
    destruct (ByteBuffer.writeByte _ bb) as [[[] bb1]|e1]; [|eexists; reflexivity].
    destruct (ByteBuffer.writeByte _ bb1) as [[[] bb2]|e2]; eexists; reflexivity.
  - eexists; reflexivity.
Qed.

(** C6, as stated, fails: with neither a numeric (wire_type) option nor an
    entry MessageType_Ping, the constructor returns a message whose type
    is undefined; [buildBuffers] then throws the TypeError of the byte
    buffer, the same error a non-integer value gives anywhere. *)
Lemma constructor_leaves_type_undefined :
  options ping_message !! "(wire_type)" = None
  /\ messageTypes ping_messages !! "MessageType_Ping" = None
  /\ BuiltMessage_constructor ping_messages "Ping" (VObj [])
     = (VObj [], Ok {| message := ping_message; type := VUndefined |})
  /\ buildBuffers ping_messages "Ping" (VObj []) = (VObj [], Throw TypeError).
Proof. repeat split; reflexivity. Qed.

(** C6, amended: when the built message has no numeric (wire_type) option
    and the table has no entry "MessageType_" + name, the constructor
    succeeds and leaves the type undefined; no configuration error is
    raised.  [buildBuffers] and [buildOne] then return no buffer: they
    throw, and when the serialisation succeeds (and fits a ByteBuffer)
    what they throw is the TypeError of [writeUint16] for a value that is
    not an integer. *)
Theorem unresolved_type_fails_at_encoding (messages : Messages) (name : string)
    (data data' : val) (builder : Builder) (msg : Message) :
  messagesByName messages !! name = Some builder ->
  cleanupInput data = (data', None) ->
  builder (if truthy data' then Some data' else None) = Ok msg ->
  (forall n, options msg !! "(wire_type)" <> Some (VNum n)) ->
  messageTypes messages !! ("MessageType_" +:+ name) = None ->
  BuiltMessage_constructor messages name data
    = (data', Ok {| message := msg; type := VUndefined |})
  /\ (exists e, buildBuffers messages name data = (data', Throw e))
  /\ (exists e, buildOne messages name data = (data', Throw e))
  /\ (forall payload,
        encodeAB msg = Ok payload ->
        HEADER_SIZE + Z.of_nat (length payload) < 2 ^ 31 ->
        buildBuffers messages name data = (data', Throw TypeError)
        /\ buildOne messages name data = (data', Throw TypeError)).
Proof.
  intros Hb Hc Hm Hopt Htab.
  assert (Hnew : BuiltMessage_constructor messages name data
                 = (data', Ok {| message := msg; type := VUndefined |})).
  { unfold BuiltMessage_constructor. rewrite (messagesByName_get_own _ _ _ Hb), Hc.
    destruct (truthy data'); rewrite Hm, Htab.
    - destruct (options msg !! "(wire_type)") as [[]|] eqn:E; try reflexivity.
      exfalso. exact (Hopt n eq_refl).
    - destruct (options msg !! "(wire_type)") as [[]|] eqn:E; try reflexivity.
      exfalso. exact (Hopt n eq_refl). }
  split; [exact Hnew|].
  unfold buildBuffers, buildOne. rewrite Hnew. cbn [mbind result_bind].
  set (this := {| message := msg; type := VUndefined |}).
  repeat split.
  - destruct (encodeLong_undefined_type_throws this true eq_refl) as [e He].
    exists e. unfold encode. rewrite He. reflexivity.
  - destruct (encodeLong_undefined_type_throws this false eq_refl) as [e He].
    exists e. unfold encodeOne. rewrite He. reflexivity.
  - unfold encode. rewrite (encodeLong_undefined_type this payload true eq_refl H H0).
    reflexivity.
  - unfold encodeOne. rewrite (encodeLong_undefined_type this payload false eq_refl H H0).
    reflexivity.
Qed.

Lemma unresolved_type_fails_at_encoding_witness :
  BuiltMessage_constructor ping_messages "Ping" angular_data
    = (prune angular_data, Ok {| message := ping_message; type := VUndefined |})
  /\ (exists e, buildBuffers ping_messages "Ping" angular_data = (prune angular_data, Throw e))
  /\ (exists e, buildOne ping_messages "Ping" angular_data = (prune angular_data, Throw e))
  /\ (forall payload,
        encodeAB ping_message = Ok payload ->
        HEADER_SIZE + Z.of_nat (length payload) < 2 ^ 31 ->
        buildBuffers ping_messages "Ping" angular_data = (prune angular_data, Throw TypeError)
        /\ buildOne ping_messages "Ping" angular_data = (prune angular_data, Throw TypeError)).
Proof.
  apply (unresolved_type_fails_at_encoding ping_messages "Ping" angular_data
           (prune angular_data) (fun _ => Ok ping_message) ping_message).
  - reflexivity.
  - reflexivity.
  - reflexivity.
  - intros n. vm_compute. discriminate.
  - reflexivity.
Defined.


(** ** Sending *)

Section sending_claims.
Context {W : Type}.
Variable sender : Uint8Array -> W -> W * result unit.

Lemma sendBuffers_recording (buffers : list Uint8Array) :
  forall (log : list Uint8Array) (w : W),
  exists sent rest w' r,
    sendBuffers (recording sender) buffers (log, w) = ((log ++ sent, w'), r)
    /\ sendBuffers sender buffers w = (w', r)
    /\ buffers = sent ++ rest
    /\ match r with
       | Ok _ => rest = []
       | Throw e =>
           exists done failed w0,
             sent = done ++ [failed]
             /\ sendBuffers sender done w = (w0, Ok tt)
             /\ sender failed w0 = (w', Throw e)
       end
    /\ (forall i buffer, sent !! i = Some buffer ->
          exists wi, sendBuffers sender (take i buffers) w = (wi, Ok tt)
                     /\ buffers !! i = Some buffer).
Proof.
  induction buffers as [|b bs IH]; intros log w.
  - exists [], [], w, (Ok tt). cbn [sendBuffers]. rewrite app_nil_r.
    repeat split. intros i buffer Hi. destruct i; discriminate.
  - cbn [sendBuffers]. unfold recording at 1. cbn [fst snd].
    destruct (sender b w) as [w1 [[]|e]] eqn:Hs.
    + destruct (IH (log ++ [b]) w1) as (sent & rest & w' & r & H1 & H2 & H3 & H4 & H5).
      exists (b :: sent), rest, w', r. rewrite H1, <- app_assoc. cbn [app].
      repeat split; try assumption.
      * rewrite H3. reflexivity.
      * destruct r as [u|e]; [assumption|].
        destruct H4 as (done & failed & w0 & -> & Hd & Hf).
        exists (b :: done), failed, w0. cbn [sendBuffers app]. rewrite Hs.
        repeat split; assumption.
      * intros [|i] buffer Hi.
        -- exists w. split; [reflexivity | exact Hi].
        -- destruct (H5 i buffer Hi) as (wi & Hwi & Hbi).
           exists wi. cbn [take sendBuffers]. rewrite Hs. split; assumption.
    + exists [b], bs, w1, (Throw e). repeat split.
      * exists [], b, w. repeat split. exact Hs.
      * intros [|i] buffer Hi; [|destruct i; discriminate].
        exists w. split; [reflexivity | exact Hi].
Qed.

(** C8: [sendBuffers], and [buildAndSend] through it, hands the chunks
    to the sender in ascending order, each one in the state the
    completed previous send left; it stops at the first send that
    fails: the failed chunk is the last one submitted and the whole
    operation fails with its error; when the buffers cannot be built
    nothing is sent. *)
Theorem sendBuffers_in_order (buffers : list Uint8Array) (w : W) :
  (exists sent rest w' r,
    sendBuffers (recording sender) buffers ([], w) = ((sent, w'), r)
    /\ sendBuffers sender buffers w = (w', r)
    /\ buffers = sent ++ rest
    /\ match r with
       | Ok _ => rest = []
       | Throw e =>
           exists done failed w0,
             sent = done ++ [failed]
             /\ sendBuffers sender done w = (w0, Ok tt)
             /\ sender failed w0 = (w', Throw e)
       end
    /\ (forall i buffer, sent !! i = Some buffer ->
          exists wi, sendBuffers sender (take i buffers) w = (wi, Ok tt)
                     /\ buffers !! i = Some buffer))
  /\ (forall messages name data,
        match buildBuffers messages name data with
        | (data', Ok built) =>
            buildAndSend (recording sender) messages name data ([], w)
            = (let '(lw, r) := sendBuffers (recording sender) built ([], w) in (data', lw, r))
        | (data', Throw e) =>
            buildAndSend (recording sender) messages name data ([], w)
            = (data', ([], w), Throw e)
        end).
Proof.
  split.
  - exact (sendBuffers_recording buffers [] w).
  - intros messages name data. unfold buildAndSend.
    destruct (buildBuffers messages name data) as [data' [built|e]]; reflexivity.
Qed.
End sending_claims.

(** Four chunks offered to a transport that accepts two: the third is
    rejected and the fourth is never submitted. *)
Example sendBuffers_stops_at_failure :
  sendBuffers (recording failing_sender) [[x01]; [x02]; [x03]; [x04]] ([], 2%nat)
  = (([[x01]; [x02]; [x03]], 0%nat), Throw (ExternalError "device disconnected")).
Proof. reflexivity. Qed.

Example buildAndSend_sends_the_chunks :
  buildAndSend (recording failing_sender) ping_messages_typed "Ping" (VObj []) ([], 5%nat)
  = (VObj [], ([[x23; x23; x00; x01; x00; x00; x00; x00] ++ replicate 55 x00], 4%nat), Ok tt).
Proof. reflexivity. Qed.

(** ** Cleaning the input *)

(** Induction on values, through arrays and objects. *)
Lemma val_ind_nested (P : val -> Prop) :
  P VUndefined -> P VNull -> (forall b, P (VBool b)) -> (forall n, P (VNum n)) ->
  (forall s, P (VStr s)) ->
  (forall elems,
      Forall (fun o => match o with Some x => P x | None => True end) elems ->
      P (VArr elems)) ->
  (forall props, Forall (fun p => P p.2) props -> P (VObj props)) ->
  forall v, P v.
Proof.
  intros HU HN HB HNum HS HA HO. fix IH 1.
  intros [ | | b | n | s | elems | props].
  - exact HU.
  - exact HN.
  - apply HB.
  - apply HNum.
  - apply HS.
  - apply HA. induction elems as [|[x|] elems IHe]; constructor; auto.
  - apply HO. induction props as [|[k x] props IHp]; constructor; auto.
Qed.

Lemma is_nullish_prune (v : val) : is_nullish (prune v) = is_nullish v.
Proof. destruct v; reflexivity. Qed.

Lemma prune_idempotent (v : val) : prune (prune v) = prune v.
Proof.
  induction v as [ | | b | n | s | elems IH | props IH] using val_ind_nested;
    try reflexivity.
  - cbn [prune]. f_equal. rewrite map_map.
    induction IH as [|[x|] elems Hx _ IHe]; cbn [map]; f_equal; try assumption.
    destruct (is_nullish x) eqn:E; [reflexivity|].
    rewrite is_nullish_prune, E, Hx. reflexivity.
  - cbn [prune]. f_equal.
    induction IH as [|[k x] props Hx _ IHp]; [reflexivity|].
    cbn [omap list_omap]. cbn [snd] in Hx.
    destruct (String.eqb k "$$hashKey" || is_nullish x) eqn:E; [exact IHp|].
    cbn [omap list_omap]. rewrite is_nullish_prune, E, Hx. f_equal. exact IHp.
Qed.

Lemma clean_prune (v : val) : clean (prune v) = true.
Proof.
  induction v as [ | | b | n | s | elems IH | props IH] using val_ind_nested;
    try reflexivity.
  - cbn [prune clean].
    induction IH as [|[x|] elems Hx _ IHe]; [reflexivity | |exact IHe].
    cbn [map forallb]. rewrite IHe, andb_true_r.
    destruct (is_nullish x) eqn:E; [reflexivity|].
    rewrite is_nullish_prune, E, Hx. reflexivity.
  - cbn [prune clean].
    induction IH as [|[k x] props Hx _ IHp]; [reflexivity|].
    cbn [omap list_omap]. cbn [snd] in Hx.
    destruct (String.eqb k "$$hashKey" || is_nullish x) eqn:E; [exact IHp|].
    cbn [forallb]. rewrite IHp, andb_true_r.
    apply orb_false_elim in E. destruct E as [E1 E2].
    rewrite E1, is_nullish_prune, E2, Hx. reflexivity.
Qed.

Lemma length_omap_le {A B : Type} (f : A -> option B) (l : list A) :
  (length (omap f l) <= length l)%nat.
Proof.
  induction l as [|a l IH]; [reflexivity|].
  cbn [omap list_omap]. destruct (f a); cbn [length]; lia.
Qed.

Lemma omap_fixed {A : Type} (f : A -> option A) (l : list A) :
  omap f l = l -> Forall (fun a => f a = Some a) l.
Proof.
  induction l as [|a l IH]; intros H; [constructor|].
  cbn [omap list_omap] in H. destruct (f a) as [a'|] eqn:E.
  - injection H as -> H. constructor; auto.
  - pose proof (length_omap_le f l) as Hl. rewrite H in Hl. cbn [length] in Hl. lia.
Qed.

(** A value the cleanup would not change holds nothing to remove. *)
Lemma prune_fixed_clean (v : val) : prune v = v -> clean v = true.
Proof.
  induction v as [ | | b | n | s | elems IH | props IH] using val_ind_nested;
    try reflexivity.
  - cbn [prune clean]. intros H. injection H as H.
    induction IH as [|[x|] elems Hx _ IHe]; [reflexivity | |].
    + cbn [map] in H. injection H as H1 H2. cbn [forallb].
      rewrite (IHe H2), andb_true_r.
      destruct (is_nullish x); [discriminate|]. injection H1 as H1.
      rewrite (Hx H1). reflexivity.
    + cbn [map] in H. injection H as H. cbn [forallb]. exact (IHe H).
  - cbn [prune clean]. intros H. injection H as H.
    apply omap_fixed in H.
    induction IH as [|[k x] props Hx _ IHp]; [reflexivity|].
    inversion H as [|? ? Hhd Htl]; subst. cbn [forallb snd] in *.
    rewrite (IHp Htl), andb_true_r.
    destruct (String.eqb k "$$hashKey"); [discriminate|].
    destruct (is_nullish x); [discriminate|].
    cbn [orb] in Hhd. injection Hhd as Hhd. rewrite (Hx Hhd). reflexivity.
Qed.

(** What the loops of [cleanupInput] leave when they complete normally. *)
Section cleanup_result.
Variable rec : val -> option (val * completion).
Hypothesis rec_prune : forall v v', rec v = Some (v', None) -> v' = prune v.

Lemma prune_not_object (i : val) : typeof_object i = false -> prune i = i.
Proof. destruct i; try reflexivity; discriminate. Qed.

Lemma forEach_elems_prune (elems elems' : list (option val)) :
  forEach_elems rec elems = Some (elems', None) ->
  elems' = map (fmap prune) elems.
Proof.
  revert elems'. induction elems as [|[i|] rest IH]; intros elems' H.
  - injection H as <-. reflexivity.
  - cbn [forEach_elems] in H. destruct (typeof_object i) eqn:Ti.
    + destruct (rec i) as [[i' [e|]]|] eqn:Ri; cbn [mbind option_bind] in H;
        try discriminate.
      destruct (forEach_elems rec rest) as [[rest' c']|] eqn:Er;
        cbn [mbind option_bind] in H; try discriminate.
      injection H as <- ->. cbn [map fmap option_fmap option_map].
      rewrite (rec_prune _ _ Ri), (IH _ eq_refl). reflexivity.
    + destruct (forEach_elems rec rest) as [[rest' c']|] eqn:Er;
        cbn [mbind option_bind] in H; try discriminate.
      injection H as <- ->. cbn [map fmap option_fmap option_map].
      rewrite (prune_not_object _ Ti), (IH _ eq_refl). reflexivity.
  - cbn [forEach_elems] in H.
    destruct (forEach_elems rec rest) as [[rest' c']|] eqn:Er;
      cbn [mbind option_bind] in H; try discriminate.
    injection H as <- ->. cbn [map]. rewrite (IH _ eq_refl). reflexivity.
Qed.

Lemma prune_each_pruned (elems : list (option val)) :
  prune (VArr (map (fmap prune) elems)) = prune (VArr elems).
Proof.
  cbn [prune]. f_equal. rewrite map_map. apply map_ext. intros [x|]; [|reflexivity].
  cbn [fmap option_fmap option_map]. rewrite is_nullish_prune, prune_idempotent.
  reflexivity.
Qed.

Lemma visit_prune (value : val) (kept : option val) :
  visit rec value = Some (kept, None) ->
  kept = if is_nullish value then None else Some (prune value).
Proof.
  unfold visit. destruct (is_nullish value) eqn:Hn; [congruence|].
  destruct value as [ | | b | n | s | elems | props];
    try discriminate; try (cbn [prune]; congruence).
  - destruct (forEach_elems rec elems) as [[elems' [e|]]|] eqn:Ef;
      cbn [mbind option_bind]; try discriminate.
    destruct (rec (VArr elems')) as [[v' c]|] eqn:Rv; cbn [mbind option_bind];
      try discriminate.
    intros H. injection H as <- ->.
    rewrite (rec_prune _ _ Rv), (forEach_elems_prune _ _ Ef), prune_each_pruned.
    reflexivity.
  - destruct (rec (VObj props)) as [[v' c]|] eqn:Rv; cbn [mbind option_bind];
      try discriminate.
    intros H. injection H as <- ->. rewrite (rec_prune _ _ Rv). reflexivity.
Qed.

Lemma forin_props_prune (props props' : list (string * val)) :
  forin_props rec props = Some (props', None) ->
  props' = omap (fun p => if is_nullish p.2 then None else Some (p.1, prune p.2)) props.
Proof.
  revert props'. induction props as [|[key value] rest IH]; intros props' H.
  - injection H as <-. reflexivity.
  - cbn [forin_props] in H.
    destruct (visit rec value) as [[kept [e|]]|] eqn:Ev; cbn [mbind option_bind] in H;
      try discriminate.
    destruct (forin_props rec rest) as [[rest' c']|] eqn:Er;
      cbn [mbind option_bind] in H; try discriminate.
    injection H as <- ->. apply visit_prune in Ev. subst kept.
    cbn [omap list_omap fst snd]. rewrite <- (IH _ eq_refl).
    destruct (is_nullish value); reflexivity.
Qed.

Lemma forin_elems_prune (elems elems' : list (option val)) :
  forin_elems rec elems = Some (elems', None) ->
  elems' = map (fun o => match o with
                         | Some x => if is_nullish x then None else Some (prune x)
                         | None => None
                         end) elems.
Proof.
  revert elems'. induction elems as [|[value|] rest IH]; intros elems' H.
  - injection H as <-. reflexivity.
  - cbn [forin_elems] in H.
    destruct (visit rec value) as [[kept [e|]]|] eqn:Ev; cbn [mbind option_bind] in H;
      try discriminate.
    destruct (forin_elems rec rest) as [[rest' c']|] eqn:Er;
      cbn [mbind option_bind] in H; try discriminate.
    injection H as <- ->. apply visit_prune in Ev. subst kept.
    cbn [map]. rewrite <- (IH _ eq_refl). reflexivity.
  - cbn [forin_elems] in H.
    destruct (forin_elems rec rest) as [[rest' c']|] eqn:Er;
      cbn [mbind option_bind] in H; try discriminate.
    injection H as <- ->. cbn [map]. rewrite <- (IH _ eq_refl). reflexivity.
Qed.
End cleanup_result.

Lemma omap_delete_hashKey (props : list (string * val)) :
  omap (fun p => if is_nullish p.2 then None else Some (p.1, prune p.2))
       (delete_prop "$$hashKey" props)
  = omap (fun p => match p with
                   | (key, x) =>
                       if String.eqb key "$$hashKey" || is_nullish x then None
                       else Some (key, prune x)
                   end) props.
Proof.
  unfold delete_prop. induction props as [|[key x] rest IH]; [reflexivity|].
  rewrite filter_cons. cbn [fst omap list_omap].
  destruct (String.eqb_spec key "$$hashKey") as [-> | Hne].
  - rewrite decide_False by (intros H; apply H; reflexivity). exact IH.
  - rewrite decide_True by assumption. cbn [omap list_omap fst snd orb].
    rewrite IH. reflexivity.
Qed.

(** A call of [cleanupInput] that returns normally leaves the pruned object. *)
Lemma cleanupInput_fuel_prune (fuel : nat) :
  forall v v', cleanupInput_fuel fuel v = Some (v', None) -> v' = prune v.
Proof.
  induction fuel as [|fuel IH]; intros v v' H; [discriminate|].
  cbn [cleanupInput_fuel] in H.
  destruct v as [ | | b | n | s | elems | props];
    try discriminate; try (cbn [prune]; congruence).
  - destruct (forin_elems (cleanupInput_fuel fuel) elems) as [[elems' c]|] eqn:E;
      cbn [mbind option_bind] in H; try discriminate.
    injection H as <- ->. rewrite (forin_elems_prune _ IH _ _ E). reflexivity.
  - destruct (forin_props (cleanupInput_fuel fuel) (delete_prop "$$hashKey" props))
      as [[props' c]|] eqn:E; cbn [mbind option_bind] in H; try discriminate.
    injection H as <- ->. rewrite (forin_props_prune _ IH _ _ E), omap_delete_hashKey.
    reflexivity.
Qed.

(** The call stack of [cleanupInput] is bounded by the nesting of the value. *)

Lemma depth_VArr_le (elems : list (option val)) (d : nat) :
  (depth (VArr elems) <= S d)%nat <-> Forall (depth_below d) elems.
Proof.
  cbn [depth]. induction elems as [|[x|] elems IH]; simpl.
  - split; [constructor | lia].
  - rewrite Forall_cons, <- IH. unfold depth_below at 1. lia.
  - rewrite Forall_cons, <- IH. unfold depth_below at 1. tauto.
Qed.

Lemma depth_VObj_le (props : list (string * val)) (d : nat) :
  (depth (VObj props) <= S d)%nat <-> Forall (fun p => (depth p.2 <= d)%nat) props.
Proof.
  cbn [depth]. induction props as [|[k x] props IH]; simpl.
  - split; [constructor | lia].
  - rewrite Forall_cons, <- IH. simpl. lia.
Qed.

Section cleanup_total.
Variable rec : val -> option (val * completion).
Variable n : nat.
Hypothesis rec_total : forall v d,
  (d < n)%nat -> (depth v <= d)%nat ->
  exists v' c, rec v = Some (v', c) /\ (depth v' <= d)%nat.

Lemma forEach_elems_total (elems : list (option val)) (d : nat) :
  (d < n)%nat -> Forall (depth_below d) elems ->
  exists elems' c, forEach_elems rec elems = Some (elems', c) /\ Forall (depth_below d) elems'.
Proof.
  intros Hd. induction elems as [|[i|] rest IH]; intros Hall.
  - exists [], None. split; [reflexivity | constructor].
  - apply Forall_cons in Hall. destruct Hall as [Hi Hrest].
    destruct (IH Hrest) as (rest' & c & Er & Hr').
    cbn [forEach_elems]. destruct (typeof_object i).
    + destruct (rec_total i d Hd Hi) as (i' & ci & Ri & Hi').
      rewrite Ri. cbn [mbind option_bind]. destruct ci as [e|].
      * eexists _, _. split; [reflexivity|]. constructor; assumption.
      * rewrite Er. cbn [mbind option_bind].
        eexists _, _. split; [reflexivity|]. constructor; assumption.
    + rewrite Er. cbn [mbind option_bind].
      eexists _, _. split; [reflexivity|]. constructor; assumption.
  - apply Forall_cons in Hall. destruct Hall as [_ Hrest].
    destruct (IH Hrest) as (rest' & c & Er & Hr').
    cbn [forEach_elems]. rewrite Er. cbn [mbind option_bind].
    eexists _, _. split; [reflexivity|]. constructor; [exact I | assumption].
Qed.

Lemma visit_total (value : val) (d : nat) :
  (d < n)%nat -> (depth value <= d)%nat ->
  exists kept c, visit rec value = Some (kept, c) /\ depth_below d kept.
Proof.
  intros Hd Hv. unfold visit. destruct (is_nullish value) eqn:Hn.
  { exists None, None. split; [reflexivity | exact I]. }
  destruct value as [ | | b | k | s | elems | props]; try discriminate;
    try (eexists _, _; split; [reflexivity | exact Hv]).
  - destruct d as [|d']; [cbn [depth] in Hv; lia|].
    apply depth_VArr_le in Hv.
    destruct (forEach_elems_total elems d' ltac:(lia) Hv) as (elems' & c & Ef & He').
    rewrite Ef. cbn [mbind option_bind]. destruct c as [e|].
    + eexists _, _. split; [reflexivity|]. apply depth_VArr_le. exact He'.
    + apply depth_VArr_le in He'.
      destruct (rec_total _ _ Hd He') as (v' & c' & Rv & Hv').
      rewrite Rv. cbn [mbind option_bind].
      eexists _, _. split; [reflexivity | exact Hv'].
  - destruct (rec_total _ _ Hd Hv) as (v' & c' & Rv & Hv').
    rewrite Rv. cbn [mbind option_bind].
    eexists _, _. split; [reflexivity | exact Hv'].
Qed.

Lemma forin_props_total (props : list (string * val)) (d : nat) :
  (d < n)%nat -> Forall (fun p => (depth p.2 <= d)%nat) props ->
  exists props' c,
    forin_props rec props = Some (props', c)
    /\ Forall (fun p => (depth p.2 <= d)%nat) props'.
Proof.
  intros Hd. induction props as [|[key value] rest IH]; intros Hall.
  - exists [], None. split; [reflexivity | constructor].
  - apply Forall_cons in Hall. destruct Hall as [Hv Hrest]. cbn [snd] in Hv.
    destruct (IH Hrest) as (rest' & c & Er & Hr').
    destruct (visit_total value d Hd Hv) as (kept & cv & Ev & Hk).
    cbn [forin_props]. rewrite Ev. cbn [mbind option_bind].
    assert (Hhere : forall tail, Forall (fun p => (depth p.2 <= d)%nat) tail ->
              Forall (fun p => (depth p.2 <= d)%nat)
                (match kept with Some v => [(key, v)] | None => [] end ++ tail)).
    { intros tail Ht. destruct kept; [constructor|]; assumption. }
    destruct cv as [e|].
    + eexists _, _. split; [reflexivity | apply Hhere; assumption].
    + rewrite Er. cbn [mbind option_bind].
      eexists _, _. split; [reflexivity | apply Hhere; assumption].
Qed.

Lemma forin_elems_total (elems : list (option val)) (d : nat) :
  (d < n)%nat -> Forall (depth_below d) elems ->
  exists elems' c, forin_elems rec elems = Some (elems', c) /\ Forall (depth_below d) elems'.
Proof.
  intros Hd. induction elems as [|[value|] rest IH]; intros Hall.
  - exists [], None. split; [reflexivity | constructor].
  - apply Forall_cons in Hall. destruct Hall as [Hv Hrest].
    destruct (IH Hrest) as (rest' & c & Er & Hr').
    destruct (visit_total value d Hd Hv) as (kept & cv & Ev & Hk).
    cbn [forin_elems]. rewrite Ev. cbn [mbind option_bind]. destruct cv as [e|].
    + eexists _, _. split; [reflexivity|]. constructor; assumption.
    + rewrite Er. cbn [mbind option_bind].
      eexists _, _. split; [reflexivity|]. constructor; assumption.
  - apply Forall_cons in Hall. destruct Hall as [_ Hrest].
    destruct (IH Hrest) as (rest' & c & Er & Hr').
    cbn [forin_elems]. rewrite Er. cbn [mbind option_bind].
    eexists _, _. split; [reflexivity|]. constructor; [exact I | assumption].
Qed.
End cleanup_total.

Lemma delete_prop_depth (key : string) (props : list (string * val)) (d : nat) :
  Forall (fun p => (depth p.2 <= d)%nat) props ->
  Forall (fun p => (depth p.2 <= d)%nat) (delete_prop key props).
Proof.
  intros H. unfold delete_prop. apply Forall_forall. intros p Hp.
  apply list_elem_of_filter in Hp. destruct Hp as [_ Hp].
  revert p Hp. apply Forall_forall. exact H.
Qed.

(** With fuel above the nesting depth the call returns, and the value it
    leaves is nested no deeper. *)
Lemma cleanupInput_fuel_total (fuel : nat) :
  forall v d, (d < fuel)%nat -> (depth v <= d)%nat ->
  exists v' c, cleanupInput_fuel fuel v = Some (v', c) /\ (depth v' <= d)%nat.
Proof.
  induction fuel as [|fuel IH]; intros v d Hd Hv; [lia|].
  cbn [cleanupInput_fuel].
  destruct v as [ | | b | k | s | elems | props];
    try (eexists _, _; split; [reflexivity | exact Hv]).
  - destruct d as [|d']; [cbn [depth] in Hv; lia|].
    apply depth_VArr_le in Hv.
    destruct (forin_elems_total _ fuel IH elems d' ltac:(lia) Hv) as (elems' & c & E & He').
    rewrite E. cbn [mbind option_bind].
    eexists _, _. split; [reflexivity|]. apply depth_VArr_le. exact He'.
  - destruct d as [|d']; [cbn [depth] in Hv; lia|].
    apply depth_VObj_le in Hv. apply (delete_prop_depth "$$hashKey") in Hv.
    destruct (forin_props_total _ fuel IH _ d' ltac:(lia) Hv) as (props' & c & E & Hp').
    rewrite E. cbn [mbind option_bind].
    eexists _, _. split; [reflexivity|]. apply depth_VObj_le. exact Hp'.
Qed.

(** More fuel does not change what a returning call does. *)
Section cleanup_mono.
Variables rec1 rec2 : val -> option (val * completion).
Hypothesis ext : forall v r, rec1 v = Some r -> rec2 v = Some r.

Lemma forEach_elems_mono (elems : list (option val)) :
  forall r, forEach_elems rec1 elems = Some r -> forEach_elems rec2 elems = Some r.
Proof.
  induction elems as [|[i|] rest IH]; intros r H; cbn [forEach_elems] in *.
  - exact H.
  - destruct (typeof_object i).
    + destruct (rec1 i) as [[i' c]|] eqn:R1; [|discriminate].
      rewrite (ext _ _ R1). cbn [mbind option_bind] in *. destruct c; [exact H|].
      destruct (forEach_elems rec1 rest) as [r'|] eqn:E1; [|discriminate].
      rewrite (IH _ eq_refl). exact H.
    + destruct (forEach_elems rec1 rest) as [r'|] eqn:E1; [|discriminate].
      rewrite (IH _ eq_refl). exact H.
  - destruct (forEach_elems rec1 rest) as [r'|] eqn:E1; [|discriminate].
    rewrite (IH _ eq_refl). exact H.
Qed.

Lemma visit_mono (value : val) :
  forall r, visit rec1 value = Some r -> visit rec2 value = Some r.
Proof.
  intros r H. unfold visit in *. destruct (is_nullish value); [exact H|].
  destruct value as [ | | b | k | s | elems | props]; try exact H.
  - destruct (forEach_elems rec1 elems) as [[elems' c]|] eqn:E1; [|discriminate].
    rewrite (forEach_elems_mono _ _ E1). cbn [mbind option_bind] in *.
    destruct c; [exact H|].
    destruct (rec1 (VArr elems')) as [r'|] eqn:R1; [|discriminate].
    rewrite (ext _ _ R1). exact H.
  - destruct (rec1 (VObj props)) as [r'|] eqn:R1; [|discriminate].
    rewrite (ext _ _ R1). exact H.
Qed.

Lemma forin_props_mono (props : list (string * val)) :
  forall r, forin_props rec1 props = Some r -> forin_props rec2 props = Some r.
Proof.
  induction props as [|[key value] rest IH]; intros r H; cbn [forin_props] in *.
  - exact H.
  - destruct (visit rec1 value) as [[kept c]|] eqn:V1; [|discriminate].
    rewrite (visit_mono _ _ V1). cbn [mbind option_bind] in *.
    destruct c; [exact H|].
    destruct (forin_props rec1 rest) as [r'|] eqn:E1; [|discriminate].
    rewrite (IH _ eq_refl). exact H.
Qed.

Lemma forin_elems_mono (elems : list (option val)) :
  forall r, forin_elems rec1 elems = Some r -> forin_elems rec2 elems = Some r.
Proof.
  induction elems as [|[value|] rest IH]; intros r H; cbn [forin_elems] in *.
  - exact H.
  - destruct (visit rec1 value) as [[kept c]|] eqn:V1; [|discriminate].
    rewrite (visit_mono _ _ V1). cbn [mbind option_bind] in *.
    destruct c; [exact H|].
    destruct (forin_elems rec1 rest) as [r'|] eqn:E1; [|discriminate].
    rewrite (IH _ eq_refl). exact H.
  - destruct (forin_elems rec1 rest) as [r'|] eqn:E1; [|discriminate].
    rewrite (IH _ eq_refl). exact H.
Qed.
End cleanup_mono.

Lemma cleanupInput_fuel_unfold (fuel : nat) (message : val) :
  cleanupInput_fuel (S fuel) message
  = match message with
    | VUndefined | VNull => Some (message, Some TypeError)
    | VBool _ | VNum _ | VStr _ => Some (message, None)
    | VArr elems =>
        '(elems', c) ← forin_elems (cleanupInput_fuel fuel) elems;
        Some (VArr elems', c)
    | VObj props =>
        '(props', c) ← forin_props (cleanupInput_fuel fuel) (delete_prop "$$hashKey" props);
        Some (VObj props', c)
    end.
Proof. reflexivity. Qed.

Lemma cleanupInput_fuel_S (fuel : nat) :
  forall v r, cleanupInput_fuel fuel v = Some r -> cleanupInput_fuel (S fuel) v = Some r.
Proof.
  induction fuel as [|fuel IH]; intros v r H; [discriminate|].
  rewrite cleanupInput_fuel_unfold in H. rewrite cleanupInput_fuel_unfold.
  destruct v as [ | | b | k | s | elems | props]; try exact H.
  - destruct (forin_elems (cleanupInput_fuel fuel) elems) as [r'|] eqn:E; [|discriminate].
    rewrite (forin_elems_mono _ _ IH _ _ E). exact H.
  - destruct (forin_props (cleanupInput_fuel fuel) (delete_prop "$$hashKey" props))
      as [r'|] eqn:E; [|discriminate].
    rewrite (forin_props_mono _ _ IH _ _ E). exact H.
Qed.

Lemma cleanupInput_fuel_le (fuel fuel' : nat) (v : val) (r : val * completion) :
  (fuel <= fuel')%nat ->
  cleanupInput_fuel fuel v = Some r -> cleanupInput_fuel fuel' v = Some r.
Proof.
  induction 1 as [|fuel' _ IH]; intros H; [exact H|].
  apply cleanupInput_fuel_S, IH, H.
Qed.

Lemma cleanupInput_fuel_enough (fuel : nat) (v : val) :
  (depth v < fuel)%nat -> cleanupInput_fuel fuel v = Some (cleanupInput v).
Proof.
  intros Hf. unfold cleanupInput.
  destruct (cleanupInput_fuel_total (S (depth v)) v (depth v)) as (v' & c & E & _); [lia..|].
  rewrite E. cbn [default from_option id].
  eapply cleanupInput_fuel_le; [|exact E]. lia.
Qed.

Lemma cleanupInput_normal (v v' : val) : cleanupInput v = (v', None) -> v' = prune v.
Proof.
  intros H. apply (cleanupInput_fuel_prune (S (depth v))).
  rewrite cleanupInput_fuel_enough by lia. rewrite H. reflexivity.
Qed.

(** ** Cleaning the input: claims *)

(** Where no array holds a null element the cleanup returns normally. *)

Lemma depth_prune (v : val) : forall d, (depth v <= d)%nat -> (depth (prune v) <= d)%nat.
Proof.
  induction v as [ | | b | n | s | elems IH | props IH] using val_ind_nested;
    intros d Hd; try exact Hd.
  - destruct d as [|d]; [cbn [depth] in Hd; lia|].
    apply depth_VArr_le in Hd. cbn [prune]. apply depth_VArr_le.
    induction IH as [|[x|] elems Hx _ IHe]; cbn [map].
    + constructor.
    + apply Forall_cons in Hd. destruct Hd as [Hxd Hrest].
      constructor; [|exact (IHe Hrest)].
      destruct (is_nullish x); [exact I | exact (Hx _ Hxd)].
    + apply Forall_cons in Hd. destruct Hd as [_ Hrest].
      constructor; [exact I | exact (IHe Hrest)].
  - destruct d as [|d]; [cbn [depth] in Hd; lia|].
    apply depth_VObj_le in Hd. cbn [prune]. apply depth_VObj_le.
    induction IH as [|[k x] props Hx _ IHp]; cbn [omap list_omap].
    + constructor.
    + apply Forall_cons in Hd. destruct Hd as [Hxd Hrest]. cbn [snd] in *.
      destruct (String.eqb k "$$hashKey" || is_nullish x); [exact (IHp Hrest)|].
      constructor; [exact (Hx _ Hxd) | exact (IHp Hrest)].
Qed.

Lemma prune_VNull (x : val) : prune x = VNull -> x = VNull.
Proof. destruct x; try discriminate; reflexivity. Qed.

Lemma no_null_element_prune (v : val) :
  no_null_element v = true -> no_null_element (prune v) = true.
Proof.
  induction v as [ | | b | n | s | elems IH | props IH] using val_ind_nested;
    intros H; try exact H.
  - cbn [prune no_null_element] in *.
    induction IH as [|[x|] elems Hx _ IHe]; cbn [map forallb] in *.
    + reflexivity.
    + apply andb_prop in H. destruct H as [H1 H2]. rewrite (IHe H2), andb_true_r.
      destruct (is_nullish x); [reflexivity|].
      assert (Hp : no_null_element (prune x) = true)
        by (apply Hx; destruct x; try exact H1; reflexivity).
      destruct (prune x) eqn:E; try exact Hp.
      apply prune_VNull in E. subst x. discriminate.
    + exact (IHe H).
  - cbn [prune no_null_element] in *.
    induction IH as [|[k x] props Hx _ IHp]; cbn [omap list_omap forallb] in *.
    + reflexivity.
    + apply andb_prop in H. destruct H as [H1 H2]. cbn [snd] in Hx.
      destruct (String.eqb k "$$hashKey" || is_nullish x); [exact (IHp H2)|].
      cbn [forallb]. rewrite (Hx H1), (IHp H2). reflexivity.
Qed.

Lemma each_pruned_depth (elems : list (option val)) (d : nat) :
  Forall (depth_below d) elems -> Forall (depth_below d) (map (fmap prune) elems).
Proof.
  induction 1 as [|[x|] elems Hx _ IH]; cbn [map fmap option_fmap option_map];
    constructor; try assumption.
  apply depth_prune. exact Hx.
Qed.

Lemma each_pruned_no_null (elems : list (option val)) :
  no_null_element (VArr elems) = true ->
  no_null_element (VArr (map (fmap prune) elems)) = true.
Proof.
  cbn [no_null_element].
  induction elems as [|[x|] elems IH]; cbn [map fmap option_fmap option_map forallb];
    intros H; try reflexivity.
  - apply andb_prop in H. destruct H as [H1 H2]. rewrite (IH H2), andb_true_r.
    assert (Hp : no_null_element (prune x) = true)
      by (apply no_null_element_prune; destruct x; try exact H1; reflexivity).
    destruct (prune x) eqn:E; try exact Hp.
    apply prune_VNull in E. subst x. discriminate.
  - exact (IH H).
Qed.

Section cleanup_returns.
Variable rec : val -> option (val * completion).
Variable n : nat.
Hypothesis rec_returns : forall v d,
  (d < n)%nat -> (depth v <= d)%nat -> no_null_element v = true -> is_nullish v = false ->
  rec v = Some (prune v, None).

Lemma forEach_elems_returns (elems : list (option val)) (d : nat) :
  (d < n)%nat -> Forall (depth_below d) elems -> no_null_element (VArr elems) = true ->
  forEach_elems rec elems = Some (map (fmap prune) elems, None).
Proof.
  intros Hd. cbn [no_null_element].
  induction elems as [|[i|] rest IH]; intros Hall Hc.
  - reflexivity.
  - apply Forall_cons in Hall. destruct Hall as [Hi Hrest].
    cbn [forallb] in Hc. apply andb_prop in Hc. destruct Hc as [Hci Hcr].
    cbn [forEach_elems map fmap option_fmap option_map]. rewrite (IH Hrest Hcr).
    destruct (typeof_object i) eqn:Ti.
    + assert (Hn : is_nullish i = false) by (destruct i; try reflexivity; discriminate).
      assert (Hni : no_null_element i = true)
        by (destruct i; try exact Hci; reflexivity).
      rewrite (rec_returns i d Hd Hi Hni Hn). reflexivity.
    + cbn [mbind option_bind]. rewrite (prune_not_object _ Ti). reflexivity.
  - apply Forall_cons in Hall. destruct Hall as [_ Hrest].
    cbn [forallb] in Hc.
    cbn [forEach_elems map]. rewrite (IH Hrest Hc). reflexivity.
Qed.

Lemma visit_returns (value : val) (d : nat) :
  (d < n)%nat -> (depth value <= d)%nat -> no_null_element value = true ->
  visit rec value = Some (if is_nullish value then None else Some (prune value), None).
Proof.
  intros Hd Hv Hc. unfold visit.
  destruct value as [ | | b | k | s | elems | props]; try reflexivity.
  - cbn [is_nullish].
    destruct d as [|d']; [cbn [depth] in Hv; lia|].
    assert (He : Forall (depth_below d') elems) by (apply depth_VArr_le; exact Hv).
    rewrite (forEach_elems_returns elems d' ltac:(lia) He Hc). cbn [mbind option_bind].
    rewrite (rec_returns (VArr (map (fmap prune) elems)) (S d') Hd).
    + cbn [mbind option_bind]. rewrite prune_each_pruned. reflexivity.
    + apply depth_VArr_le. apply each_pruned_depth. exact He.
    + apply each_pruned_no_null. exact Hc.
    + reflexivity.
  - cbn [is_nullish]. rewrite (rec_returns _ _ Hd Hv Hc eq_refl). reflexivity.
Qed.

Lemma forin_props_returns (props : list (string * val)) (d : nat) :
  (d < n)%nat -> Forall (fun p => (depth p.2 <= d)%nat) props ->
  no_null_element (VObj props) = true ->
  forin_props rec props
  = Some (omap (fun p => if is_nullish p.2 then None else Some (p.1, prune p.2)) props, None).
Proof.
  intros Hd. cbn [no_null_element].
  induction props as [|[key value] rest IH]; intros Hall Hc.
  - reflexivity.
  - apply Forall_cons in Hall. destruct Hall as [Hv Hrest]. cbn [snd] in Hv.
    cbn [forallb] in Hc. apply andb_prop in Hc. destruct Hc as [Hcv Hcr].
    cbn [forin_props]. rewrite (visit_returns value d Hd Hv Hcv).
    cbn [mbind option_bind]. rewrite (IH Hrest Hcr). cbn [mbind option_bind].
    cbn [omap list_omap fst snd]. destruct (is_nullish value); reflexivity.
Qed.

Lemma forin_elems_returns (elems : list (option val)) (d : nat) :
  (d < n)%nat -> Forall (depth_below d) elems -> no_null_element (VArr elems) = true ->
  forin_elems rec elems
  = Some (map (fun o => match o with
                        | Some x => if is_nullish x then None else Some (prune x)
                        | None => None
                        end) elems, None).
Proof.
  intros Hd. cbn [no_null_element].
  induction elems as [|[value|] rest IH]; intros Hall Hc.
  - reflexivity.
  - apply Forall_cons in Hall. destruct Hall as [Hv Hrest].
    cbn [forallb] in Hc. apply andb_prop in Hc. destruct Hc as [Hcv Hcr].
    assert (Hnv : no_null_element value = true)
      by (destruct value; try exact Hcv; reflexivity).
    cbn [forin_elems]. rewrite (visit_returns value d Hd Hv Hnv).
    cbn [mbind option_bind]. rewrite (IH Hrest Hcr). reflexivity.
  - apply Forall_cons in Hall. destruct Hall as [_ Hrest].
    cbn [forallb] in Hc.
    cbn [forin_elems]. rewrite (IH Hrest Hc). reflexivity.
Qed.
End cleanup_returns.

Lemma delete_prop_no_null (key : string) (props : list (string * val)) :
  no_null_element (VObj props) = true ->
  no_null_element (VObj (delete_prop key props)) = true.
Proof.
  cbn [no_null_element]. unfold delete_prop.
  induction props as [|[k x] rest IH]; intros H; [reflexivity|].
  cbn [forallb] in H. apply andb_prop in H. destruct H as [H1 H2].
  rewrite filter_cons. destruct (decide ((k, x).1 ≠ key)).
  - cbn [forallb]. rewrite H1, (IH H2). reflexivity.
  - exact (IH H2).
Qed.

Lemma cleanupInput_fuel_returns (fuel : nat) :
  forall v d, (d < fuel)%nat -> (depth v <= d)%nat -> no_null_element v = true ->
  is_nullish v = false ->
  cleanupInput_fuel fuel v = Some (prune v, None).
Proof.
  induction fuel as [|fuel IH]; intros v d Hd Hv Hc Hn; [lia|].
  rewrite cleanupInput_fuel_unfold.
  destruct v as [ | | b | k | s | elems | props]; try reflexivity; try discriminate.
  - destruct d as [|d']; [cbn [depth] in Hv; lia|].
    assert (He : Forall (depth_below d') elems) by (apply depth_VArr_le; exact Hv).
    rewrite (forin_elems_returns _ fuel IH elems d' ltac:(lia) He Hc). reflexivity.
  - destruct d as [|d']; [cbn [depth] in Hv; lia|].
    assert (Hp : Forall (fun p => (depth p.2 <= d')%nat) (delete_prop "$$hashKey" props))
      by (apply delete_prop_depth, depth_VObj_le; exact Hv).
    rewrite (forin_props_returns _ fuel IH _ d' ltac:(lia) Hp
               (delete_prop_no_null _ _ Hc)).
    cbn [mbind option_bind]. rewrite omap_delete_hashKey. reflexivity.
Qed.

(** [cleanupInput] returns normally, leaving the pruned object, on every
    value that is not null or undefined and in which no array holds a
    null element. *)
Lemma cleanupInput_returns (v : val) :
  is_nullish v = false -> no_null_element v = true -> cleanupInput v = (prune v, None).
Proof.
  intros Hn Hc. unfold cleanupInput.
  rewrite (cleanupInput_fuel_returns (S (depth v)) v (depth v)) by (assumption || lia).
  reflexivity.
Qed.

Lemma constructor_data (messages : Messages) (name : string) (data : val) (builder : Builder) :
  messagesByName messages !! name = Some builder ->
  (BuiltMessage_constructor messages name data).1 = (cleanupInput data).1.
Proof.
  intros Hb. unfold BuiltMessage_constructor. rewrite (messagesByName_get_own _ _ _ Hb).
  destruct (cleanupInput data) as [data' [e|]]; [reflexivity|].
  destruct (truthy data'); destruct (builder _); reflexivity.
Qed.

Lemma buildBuffers_data (messages : Messages) (name : string) (data : val) :
  (buildBuffers messages name data).1 = (BuiltMessage_constructor messages name data).1.
Proof.
  unfold buildBuffers. destruct (BuiltMessage_constructor messages name data). reflexivity.
Qed.

Lemma buildOne_data (messages : Messages) (name : string) (data : val) :
  (buildOne messages name data).1 = (BuiltMessage_constructor messages name data).1.
Proof.
  unfold buildOne. destruct (BuiltMessage_constructor messages name data). reflexivity.
Qed.

Lemma buildAndSend_data {W : Type} (sender : Uint8Array -> W -> W * result unit)
    (messages : Messages) (name : string) (data : val) (w : W) :
  (buildAndSend sender messages name data w).1.1 = (buildBuffers messages name data).1.
Proof.
  unfold buildAndSend. destruct (buildBuffers messages name data) as [data' [built|e]].
  - destruct (sendBuffers sender built w). reflexivity.
  - reflexivity.
Qed.




(** What the example object is left as. *)
Example cleanup_angular_data :
  buildBuffers ping_messages_typed "Ping" angular_data
  = (VObj [("coin_name", VStr "Bitcoin"); ("inputs", VArr [Some (VObj [("amount", VNum 5)])])],
     Ok [[x23; x23; x00; x01; x00; x00; x00; x00] ++ replicate 55 x00]).
Proof. reflexivity. Qed.

(** An unknown name is rejected before the cleanup: the object is untouched. *)
Example unknown_name_leaves_data :
  buildBuffers ping_messages_typed "Pong" angular_data
  = (angular_data, Throw (MessageNameNotFound "Pong")).
Proof. reflexivity. Qed.

(** [typeof null] is [`object`]: a null element of an array that is the
    value of a property is handed to [cleanupInput], which throws on it;
    the properties not yet visited stay as they were. *)
Example cleanup_null_in_array :
  cleanupInput (VObj [("a", VArr [Some VNull]); ("b", VNull)])
  = (VObj [("a", VArr [Some VNull]); ("b", VNull)], Some TypeError).
Proof. reflexivity. Qed.

(** * Further properties of the code *)

(** ** Names and types in the constructor *)

(** X2: the type of a built message is the number of its [(wire_type)]
    option whenever that option is a number, whatever the table of types
    says; when the option is absent or not a number it is the table's
    entry under "MessageType_" + name, taken as it is. *)
Theorem type_resolution (messages : Messages) (name : string) (data data' : val)
    (builder : Builder) (msg : Message) :
  messagesByName messages !! name = Some builder ->
  cleanupInput data = (data', None) ->
  builder (if truthy data' then Some data' else None) = Ok msg ->
  (forall n, options msg !! "(wire_type)" = Some (VNum n) ->
     BuiltMessage_constructor messages name data
     = (data', Ok {| message := msg; type := VNum n |}))
  /\ (forall v, (forall n, options msg !! "(wire_type)" <> Some (VNum n)) ->
        messageTypes messages !! ("MessageType_" +:+ name) = Some v ->
        BuiltMessage_constructor messages name data
        = (data', Ok {| message := msg; type := v |})).
Proof.
  intros Hb Hc Hm.
  assert (Hnew : BuiltMessage_constructor messages name data
                 = (data', Ok {| message := msg;
                                 type := match options msg !! "(wire_type)" with
                                         | Some (VNum n) => VNum n
                                         | _ => default VUndefined
                                                  (messageTypes messages
                                                     !! ("MessageType_" +:+ name))
                                         end |})).
  { unfold BuiltMessage_constructor. rewrite (messagesByName_get_own _ _ _ Hb), Hc.
    destruct (truthy data'); rewrite Hm; reflexivity. }
  split.
  - intros n Hopt. rewrite Hnew, Hopt. reflexivity.
  - intros v Hopt Htab. rewrite Hnew, Htab.
    destruct (options msg !! "(wire_type)") as [[]|]; try reflexivity.
    exfalso. exact (Hopt n eq_refl).
Qed.

Lemma type_resolution_witness :
  (forall n, options txack_message !! "(wire_type)" = Some (VNum n) ->
     BuiltMessage_constructor txack_messages "TxAckInput" angular_data
     = (prune angular_data, Ok {| message := txack_message; type := VNum n |}))
  /\ (forall v, (forall n, options txack_message !! "(wire_type)" <> Some (VNum n)) ->
        messageTypes txack_messages !! ("MessageType_" +:+ "TxAckInput") = Some v ->
        BuiltMessage_constructor txack_messages "TxAckInput" angular_data
        = (prune angular_data, Ok {| message := txack_message; type := v |})).
Proof.
  apply (type_resolution txack_messages "TxAckInput" angular_data (prune angular_data)
           (fun _ => Ok txack_message) txack_message).
  - reflexivity.
  - reflexivity.
  - reflexivity.
Defined.

(** The option wins on the example registry: 22, not the table's 9. *)
Example txack_type_is_the_option :
  buildOne txack_messages "TxAckInput" (VObj [])
  = (VObj [], Ok [x00; x16; x00; x00; x00; x02; x0a; x00]).
Proof. reflexivity. Qed.

(** X15: [_encodeLong] returns a buffer only when the type of the message
    is a number: with any other type (undefined, null, a string) no buffer
    is produced, with or without the sentinel. *)
Theorem encodeLong_needs_number (this : BuiltMessage) (addTrezorHeaders : bool)
    (encoded : Uint8Array) :
  _encodeLong this addTrezorHeaders = Ok encoded ->
  exists n, type this = VNum n.
Proof.
  intros H. destruct (type this) as [ | | b | n | s | elems | props] eqn:Ht;
    try (exists n; reflexivity); exfalso; revert H;
    unfold _encodeLong; rewrite Ht;
    (destruct (encodeAB (message this)) as [payload|e]; cbn [mbind result_bind];
       [|discriminate]);
    (destruct (ByteBuffer.new _) as [bb|e]; cbn [mbind result_bind]; [|discriminate]);
    (destruct addTrezorHeaders;
       [ unfold mbind at 2 3 4 5; unfold ByteBuffer.M_bind;
         (destruct (ByteBuffer.writeByte _ bb) as [[[] bb1]|e1]; [|discriminate]);
         (destruct (ByteBuffer.writeByte _ bb1) as [[[] bb2]|e2]; discriminate)
       | discriminate ]).
Qed.

Lemma encodeLong_needs_number_witness : exists n, type hundred_message = VNum n.
Proof.
  apply (encodeLong_needs_number hundred_message true
           ([x23; x23; x00; x02; x00; x00; x00; x64] ++ replicate 100 xaa)).
  reflexivity.
Defined.

(** ** Encoding and decoding together *)

(** [decode] and [decodeChunked] in closed form. *)
Lemma decode_bytes (data : Uint8Array) :
  (6 <= length data)%nat ->
  Z.of_nat (length data) < 2 ^ 31 ->
  decode data = Ok (Decoded.mk (from_big_endian (take 2 data)) (drop 6 data)).
Proof.
  intros Hlen Hcap. unfold decode. rewrite concat_one by assumption.
  cbn [mbind result_bind].
  rewrite readHeader_spec by assumption.
  cbn [mbind result_bind Header.typeId].
  unfold ByteBuffer.toBuffer, ByteBuffer.capacity.
  cbn [ByteBuffer.buffer ByteBuffer.offset ByteBuffer.limit].
  destruct (Z.of_nat (length data) >? Z.of_nat (length data)) eqn:E; [lia|].
  destruct (6 >? Z.of_nat (length data)) eqn:E'; [lia|].
  cbn [orb andb Z.ltb Z.eqb Z.compare mbind result_bind mret result_ret].
  unfold JS.subarray, JS.relative_index.
  destruct (Z.of_nat (length data) <? 0) eqn:E''; [lia|].
  cbn [Z.ltb Z.compare].
  rewrite Z.min_id, Z.min_l by lia.
  change (Z.to_nat 6) with 6%nat.
  rewrite (take_ge (drop 6 data)); [reflexivity|]. rewrite length_drop. lia.
Qed.

Lemma decodeChunked_bytes (bytes : Uint8Array) :
  (8 <= length bytes)%nat ->
  bytes !! 0%nat = Some x23 ->
  bytes !! 1%nat = Some x23 ->
  decodeChunked bytes
  = Ok (DecodedChunked.mk
          (from_big_endian (take 4 (drop 4 bytes)))
          (from_big_endian (take 2 (drop 2 bytes)))
          (ByteBuffer.mk bytes 8 (Z.of_nat (length bytes)))).
Proof.
  intros Hlen H0 H1. unfold decodeChunked. rewrite wrap_eq.
  rewrite readHeaderChunked_spec by assumption.
  cbn [mbind result_bind HeaderChunked.sharp1 HeaderChunked.sharp2
       HeaderChunked.typeId HeaderChunked.length].
  rewrite H0, H1. reflexivity.
Qed.

(** X3: [decode] undoes [encodeOne]: decoding the buffer of [encodeOne]
    gives back the payload, byte for byte, and the type reduced modulo
    2^16, hence the type itself when it is in [0, 65535]; a larger or
    negative type is sent truncated, without an error. *)
Theorem decode_encodeOne (this : BuiltMessage) (t : Z) (payload : Uint8Array) :
  type this = VNum t ->
  encodeAB (message this) = Ok payload ->
  HEADER_SIZE + Z.of_nat (length payload) < 2 ^ 31 ->
  exists encoded,
    encodeOne this = Ok encoded
    /\ decode encoded = Ok (Decoded.mk (t mod 65536) payload)
    /\ (0 <= t <= 65535 -> decode encoded = Ok (Decoded.mk t payload)).
Proof.
  intros Ht Hp Hsize.
  eexists. split; [apply _encodeLong_bytes; eassumption|].
  cbn [app]. change HEADER_SIZE with 8 in Hsize.
  assert (Hd : decode (big_endian 2 t ++ big_endian 4 (Z.of_nat (length payload)) ++ payload)
               = Ok (Decoded.mk (t mod 65536) payload)).
  { rewrite decode_bytes by (rewrite !length_app, !length_big_endian; lia).
    rewrite take_app_length' by (symmetry; apply length_big_endian).
    rewrite app_assoc, drop_app_length'
      by (rewrite length_app, !length_big_endian; reflexivity).
    rewrite from_big_endian_big_endian. reflexivity. }
  split; [exact Hd|].
  intros Hr. rewrite Hd, Z.mod_small by lia. reflexivity.
Qed.

Lemma decode_encodeOne_witness :
  exists encoded,
    encodeOne hundred_message = Ok encoded
    /\ decode encoded = Ok (Decoded.mk (2 mod 65536) (replicate 100 xaa))
    /\ (0 <= 2 <= 65535 -> decode encoded = Ok (Decoded.mk 2 (replicate 100 xaa))).
Proof.
  apply (decode_encodeOne hundred_message 2 (replicate 100 xaa)).
  - reflexivity.
  - reflexivity.
  - vm_compute. reflexivity.
Defined.

(** A type outside 16 bits comes back reduced: 65537 is sent as 1. *)
Example type_is_truncated :
  encodeOne {| message := ping_message; type := VNum 65537 |} ≫= decode
  = Ok (Decoded.mk 1 []).
Proof. reflexivity. Qed.

(** X7: on every input shorter than 6 bytes, the empty one included,
    [decode] throws the buffer's RangeError. *)
Theorem decode_underflow (data : Uint8Array) :
  (length data < 6)%nat -> decode data = Throw RangeError.
Proof.
  intros Hlen.
  destruct data as [|b0 [|b1 [|b2 [|b3 [|b4 [|b5 rest]]]]]];
    cbn [length] in Hlen; try lia; reflexivity.
Qed.

Lemma decode_underflow_witness : decode [x00; x01; x00; x00; x00] = Throw RangeError.
Proof. apply (decode_underflow [x00; x01; x00; x00; x00]). simpl. lia. Defined.

(** X8: whatever the input, a result of [decodeChunked] holds a typeId in
    [0, 65535] and a length in [0, 2^32 - 1] (the four length bytes are
    combined without a sign, also when the first is 0x80 or more), and its
    cursor is at offset 8 of the unchanged input. *)
Theorem decodeChunked_ranges (bytes : Uint8Array) (r : DecodedChunked.t) :
  decodeChunked bytes = Ok r ->
  0 <= DecodedChunked.typeId r <= 65535
  /\ 0 <= DecodedChunked.length r < 2 ^ 32
  /\ DecodedChunked.restBuffer r = ByteBuffer.mk bytes 8 (Z.of_nat (length bytes)).
Proof.
  intros H.
  destruct (Nat.le_gt_cases 8 (length bytes)) as [Hlen | Hlen].
  - unfold decodeChunked in H. rewrite wrap_eq in H.
    rewrite readHeaderChunked_spec in H by assumption.
    cbn [mbind result_bind HeaderChunked.sharp1 HeaderChunked.sharp2
         HeaderChunked.typeId HeaderChunked.length] in H.
    destruct (negb _ || negb _); [discriminate|].
    injection H as <-.
    cbn [DecodedChunked.typeId DecodedChunked.length DecodedChunked.restBuffer].
    pose proof (from_big_endian_range (take 2 (drop 2 bytes))) as H2.
    pose proof (from_big_endian_range (take 4 (drop 4 bytes))) as H4.
    rewrite length_take, length_drop in H2, H4.
    replace (2 `min` (length bytes - 2))%nat with 2%nat in H2 by lia.
    replace (4 `min` (length bytes - 4))%nat with 4%nat in H4 by lia.
    change (256 ^ Z.of_nat 2) with 65536 in H2.
    change (256 ^ Z.of_nat 4) with (2 ^ 32) in H4.
    repeat split; try lia.
  - exfalso. revert H.
    destruct bytes as [|b0 [|b1 [|b2 [|b3 [|b4 [|b5 [|b6 [|b7 rest]]]]]]]];
      cbn [length] in Hlen; try lia; discriminate.
Qed.

Lemma decodeChunked_ranges_witness :
  0 <= 65535 <= 65535
  /\ 0 <= 4294967295 < 2 ^ 32
  /\ ByteBuffer.mk [x23; x23; xff; xff; xff; xff; xff; xff] 8 8
     = ByteBuffer.mk [x23; x23; xff; xff; xff; xff; xff; xff] 8
         (Z.of_nat (length [x23; x23; xff; xff; xff; xff; xff; xff])).
Proof.
  apply (decodeChunked_ranges [x23; x23; xff; xff; xff; xff; xff; xff]
           (DecodedChunked.mk 4294967295 65535
              (ByteBuffer.mk [x23; x23; xff; xff; xff; xff; xff; xff] 8 8))).
  reflexivity.
Defined.

(** ** The chunks of a message *)

(** X6: the splitting loop of [encode] never throws, whatever the bytes (a
    slice always fits the 63-byte array it is copied into); every chunk
    has 63 bytes; and there is no chunk at all exactly when there are no
    bytes. *)
Theorem splitIntoChunks_total (bytes : Uint8Array) :
  exists chunks,
    splitIntoChunks bytes = Ok chunks
    /\ Forall (fun chunk => length chunk = 63%nat) chunks
    /\ (chunks = [] <-> bytes = []).
Proof.
  eexists. split; [apply splitIntoChunks_spec|]. split.
  - apply Forall_forall. intros chunk Hin. apply list_elem_of_fmap in Hin.
    destruct Hin as (i & -> & _). apply length_chunk_at.
  - change BUFFER_SIZE with 63. destruct bytes as [|b bytes].
    + split; reflexivity.
    + split; [|discriminate]. intros H. apply (f_equal length) in H.
      rewrite length_fmap, length_seq in H. cbn [length] in H.
      assert (0 <= (Z.of_nat (S (length bytes)) - 1) / 63) by (apply Z.div_pos; lia).
      lia.
Qed.

(** What [encode] returns, from the type and the payload. *)
Lemma encode_chunks (this : BuiltMessage) (t : Z) (payload : Uint8Array) :
  type this = VNum t ->
  encodeAB (message this) = Ok payload ->
  HEADER_SIZE + Z.of_nat (length payload) < 2 ^ 31 ->
  let encoded := [x23; x23] ++ big_endian 2 t
                 ++ big_endian 4 (Z.of_nat (length payload)) ++ payload in
  encode this
  = Ok (chunk_at encoded <$> seq 0 (Z.to_nat ((Z.of_nat (length payload) + 7) / 63 + 1))).
Proof.
  intros Ht Hp Hsize encoded. unfold encode.
  rewrite (_encodeLong_bytes this t payload true Ht Hp Hsize).
  cbn [mbind result_bind]. fold encoded. rewrite splitIntoChunks_spec.
  change BUFFER_SIZE with 63.
  assert (Hn : Z.of_nat (length encoded) = Z.of_nat (length payload) + 8).
  { unfold encoded. rewrite !length_app, !length_big_endian. cbn [length]. lia. }
  rewrite Hn.
  replace (Z.of_nat (length payload) + 8 - 1) with (Z.of_nat (length payload) + 7) by lia.
  reflexivity.
Qed.

(** X5: the chunks of [encode], laid end to end, are the two sentinel
    bytes, then exactly the buffer of [encodeOne], then zeros up to a
    multiple of 63; their number is floor((L + 7) / 63) + 1 for a payload
    of L bytes, so there is always at least one chunk. *)
Theorem encode_is_encodeOne_framed (this : BuiltMessage) (t : Z) (payload : Uint8Array) :
  type this = VNum t ->
  encodeAB (message this) = Ok payload ->
  HEADER_SIZE + Z.of_nat (length payload) < 2 ^ 31 ->
  exists chunks short,
    encode this = Ok chunks
    /\ encodeOne this = Ok short
    /\ Z.of_nat (length chunks) = (Z.of_nat (length payload) + 7) / 63 + 1
    /\ chunks <> []
    /\ concat chunks
       = [x23; x23] ++ short ++ replicate (length chunks * 63 - (length payload + 8)) x00.
Proof.
  intros Ht Hp Hsize.
  eexists _, _. split; [apply (encode_chunks this t payload Ht Hp Hsize)|].
  split; [apply (_encodeLong_bytes this t payload false Ht Hp Hsize)|].
  set (L := length payload).
  set (count := Z.to_nat ((Z.of_nat L + 7) / 63 + 1)).
  pose proof (Z.div_mod (Z.of_nat L + 7) 63 ltac:(lia)) as Hdm.
  pose proof (Z.mod_pos_bound (Z.of_nat L + 7) 63 ltac:(lia)) as Hmod.
  assert (Hq : 0 <= (Z.of_nat L + 7) / 63) by (apply Z.div_pos; lia).
  rewrite length_fmap, length_seq.
  split; [unfold count; lia|]. split.
  - intros H. apply (f_equal length) in H.
    rewrite length_fmap, length_seq in H. cbn [length] in H. unfold count in H. lia.
  - assert (Hn : length ([x23; x23] ++ big_endian 2 t
                          ++ big_endian 4 (Z.of_nat L) ++ payload)
                 = (L + 8)%nat).
    { rewrite !length_app, !length_big_endian. cbn [length]. fold L. lia. }
    rewrite concat_chunks; rewrite ?Hn; [|unfold count; lia|right; unfold count; lia].
    rewrite <- !app_assoc. reflexivity.
Qed.

Lemma encode_is_encodeOne_framed_witness :
  exists chunks short,
    encode hundred_message = Ok chunks
    /\ encodeOne hundred_message = Ok short
    /\ Z.of_nat (length chunks) = (Z.of_nat (length (replicate 100 xaa)) + 7) / 63 + 1
    /\ chunks <> []
    /\ concat chunks
       = [x23; x23] ++ short
         ++ replicate (length chunks * 63 - (length (replicate 100 xaa) + 8)) x00.
Proof.
  apply (encode_is_encodeOne_framed hundred_message 2 (replicate 100 xaa)).
  - reflexivity.
  - reflexivity.
  - vm_compute. reflexivity.
Defined.

(** The first chunk of bytes that start with 8 header bytes starts with them. *)
Lemma chunk_at_header (h0 h1 h2 h3 h4 h5 h6 h7 : byte) (payload : Uint8Array) :
  exists tail,
    chunk_at (h0 :: h1 :: h2 :: h3 :: h4 :: h5 :: h6 :: h7 :: payload) 0
    = h0 :: h1 :: h2 :: h3 :: h4 :: h5 :: h6 :: h7 :: tail.
Proof.
  unfold chunk_at, padded. change (Z.to_nat BUFFER_SIZE) with 63%nat.
  cbn [Nat.mul]. rewrite drop_0. cbn [take firstn app]. eexists. reflexivity.
Qed.

Lemma decodeChunked_header_chunk (t L : Z) (payload : Uint8Array) :
  0 <= L < 2 ^ 32 ->
  let first := chunk_at ([x23; x23] ++ big_endian 2 t ++ big_endian 4 L ++ payload) 0 in
  decodeChunked first
  = Ok (DecodedChunked.mk L (t mod 65536) (ByteBuffer.mk first 8 63)).
Proof.
  intros HL first.
  pose proof (from_big_endian_big_endian 2 t) as E2.
  pose proof (from_big_endian_big_endian 4 L) as E4.
  rewrite big_endian_2 in E2. rewrite big_endian_4 in E4.
  rewrite (Z.mod_small L) in E4 by (change (256 ^ Z.of_nat 4) with (2 ^ 32); lia).
  change (256 ^ Z.of_nat 2) with 65536 in E2.
  assert (Hlen : length first = 63%nat) by apply length_chunk_at.
  unfold first in *. rewrite big_endian_2, big_endian_4 in *. cbn [app] in *.
  destruct (chunk_at_header x23 x23 (z2b (t / 256)) (z2b t) (z2b (L / 16777216))
              (z2b (L / 65536)) (z2b (L / 256)) (z2b L) payload) as [tail Htail].
  rewrite Htail in *.
  rewrite decodeChunked_bytes; [| cbn [length]; lia | reflexivity | reflexivity].
  rewrite Hlen. cbn [take drop firstn skipn]. rewrite take_0, E2, E4. reflexivity.
Qed.

Lemma encode_first_chunk (this : BuiltMessage) (t : Z) (payload : Uint8Array) :
  type this = VNum t ->
  encodeAB (message this) = Ok payload ->
  HEADER_SIZE + Z.of_nat (length payload) < 2 ^ 31 ->
  let encoded := [x23; x23] ++ big_endian 2 t
                 ++ big_endian 4 (Z.of_nat (length payload)) ++ payload in
  exists rest k,
    encode this = Ok (chunk_at encoded 0 :: rest)
    /\ concat (chunk_at encoded 0 :: rest) = encoded ++ replicate k x00.
Proof.
  intros Ht Hp Hsize encoded.
  rewrite (encode_chunks this t payload Ht Hp Hsize). fold encoded.
  set (L := length payload).
  pose proof (Z.div_mod (Z.of_nat L + 7) 63 ltac:(lia)) as Hdm.
  pose proof (Z.mod_pos_bound (Z.of_nat L + 7) 63 ltac:(lia)) as Hmod.
  assert (Hq : 0 <= (Z.of_nat L + 7) / 63) by (apply Z.div_pos; lia).
  assert (Hn : length encoded = (L + 8)%nat).
  { unfold encoded. rewrite !length_app, !length_big_endian. cbn [length]. fold L. lia. }
  destruct (Z.to_nat ((Z.of_nat L + 7) / 63 + 1)) as [|c] eqn:Hc; [lia|].
  exists (chunk_at encoded <$> seq 1 c), (S c * 63 - length encoded)%nat.
  split; [reflexivity|].
  change (chunk_at encoded 0 :: (chunk_at encoded <$> seq 1 c))
    with (chunk_at encoded <$> seq 0 (S c)).
  apply concat_chunks; rewrite Hn; lia.
Qed.

(** X4: the receiver's first step undoes the sender's: [decodeChunked] on
    the first chunk of [encode] succeeds with the length of the payload,
    the type (reduced modulo 2^16) and the cursor at offset 8 of that
    chunk; and the payload is the [length] bytes that follow the 8 header
    bytes in the chunks laid end to end. *)
Theorem decodeChunked_first_chunk (this : BuiltMessage) (t : Z) (payload : Uint8Array) :
  type this = VNum t ->
  encodeAB (message this) = Ok payload ->
  HEADER_SIZE + Z.of_nat (length payload) < 2 ^ 31 ->
  exists first rest,
    encode this = Ok (first :: rest)
    /\ decodeChunked first
       = Ok (DecodedChunked.mk (Z.of_nat (length payload)) (t mod 65536)
               (ByteBuffer.mk first 8 63))
    /\ take (length payload) (drop 8 (concat (first :: rest))) = payload.
Proof.
  intros Ht Hp Hsize.
  destruct (encode_first_chunk this t payload Ht Hp Hsize) as (rest & k & Henc & Hcat).
  eexists _, rest. split; [exact Henc|]. split.
  - apply decodeChunked_header_chunk. change HEADER_SIZE with 8 in Hsize. lia.
  - rewrite Hcat, big_endian_2, big_endian_4. cbn [app]. simpl drop.
    rewrite drop_0, take_app_length. reflexivity.
Qed.

Lemma decodeChunked_first_chunk_witness :
  exists first rest,
    encode hundred_message = Ok (first :: rest)
    /\ decodeChunked first
       = Ok (DecodedChunked.mk (Z.of_nat (length (replicate 100 xaa))) (2 mod 65536)
               (ByteBuffer.mk first 8 63))
    /\ take (length (replicate 100 xaa)) (drop 8 (concat (first :: rest)))
       = replicate 100 xaa.
Proof.
  apply (decodeChunked_first_chunk hundred_message 2 (replicate 100 xaa)).
  - reflexivity.
  - reflexivity.
  - vm_compute. reflexivity.
Defined.

(** ** More on the cleanup *)

(** On a value with nothing to remove the loops change nothing and end
    normally. *)
Section cleanup_clean.
Variable rec : val -> option (val * completion).
Variable n : nat.
Hypothesis rec_clean : forall v d,
  (d < n)%nat -> (depth v <= d)%nat -> clean v = true -> is_nullish v = false ->
  rec v = Some (v, None).

Lemma forEach_elems_clean (elems : list (option val)) (d : nat) :
  (d < n)%nat -> Forall (depth_below d) elems -> clean (VArr elems) = true ->
  forEach_elems rec elems = Some (elems, None).
Proof.
  intros Hd. induction elems as [|[i|] rest IH]; intros Hall Hc.
  - reflexivity.
  - apply Forall_cons in Hall. destruct Hall as [Hi Hrest].
    cbn [clean forallb] in Hc. apply andb_prop in Hc. destruct Hc as [Hci Hcr].
    apply andb_prop in Hci. destruct Hci as [Hni Hci]. apply negb_true_iff in Hni.
    cbn [forEach_elems]. rewrite (IH Hrest Hcr).
    destruct (typeof_object i); [|reflexivity].
    rewrite (rec_clean i d Hd Hi Hci Hni). reflexivity.
  - apply Forall_cons in Hall. destruct Hall as [_ Hrest].
    cbn [clean forallb] in Hc.
    cbn [forEach_elems]. rewrite (IH Hrest Hc). reflexivity.
Qed.

Lemma visit_clean (value : val) (d : nat) :
  (d < n)%nat -> (depth value <= d)%nat -> clean value = true ->
  is_nullish value = false ->
  visit rec value = Some (Some value, None).
Proof.
  intros Hd Hv Hc Hn. unfold visit. rewrite Hn.
  destruct value as [ | | b | k | s | elems | props]; try reflexivity.
  - destruct d as [|d']; [cbn [depth] in Hv; lia|].
    assert (He : Forall (depth_below d') elems) by (apply depth_VArr_le; exact Hv).
    rewrite (forEach_elems_clean elems d' ltac:(lia) He Hc). cbn [mbind option_bind].
    rewrite (rec_clean _ _ Hd Hv Hc eq_refl). reflexivity.
  - rewrite (rec_clean _ _ Hd Hv Hc eq_refl). reflexivity.
Qed.

Lemma forin_props_clean (props : list (string * val)) (d : nat) :
  (d < n)%nat -> Forall (fun p => (depth p.2 <= d)%nat) props -> clean (VObj props) = true ->
  forin_props rec props = Some (props, None).
Proof.
  intros Hd. induction props as [|[key value] rest IH]; intros Hall Hc.
  - reflexivity.
  - apply Forall_cons in Hall. destruct Hall as [Hv Hrest]. cbn [snd] in Hv.
    cbn [clean forallb] in Hc. apply andb_prop in Hc. destruct Hc as [Hcv Hcr].
    apply andb_prop in Hcv. destruct Hcv as [Hk Hcv].
    apply andb_prop in Hk. destruct Hk as [_ Hnv]. apply negb_true_iff in Hnv.
    cbn [forin_props]. rewrite (visit_clean value d Hd Hv Hcv Hnv).
    cbn [mbind option_bind]. rewrite (IH Hrest Hcr). reflexivity.
Qed.

Lemma forin_elems_clean (elems : list (option val)) (d : nat) :
  (d < n)%nat -> Forall (depth_below d) elems -> clean (VArr elems) = true ->
  forin_elems rec elems = Some (elems, None).
Proof.
  intros Hd. induction elems as [|[value|] rest IH]; intros Hall Hc.
  - reflexivity.
  - apply Forall_cons in Hall. destruct Hall as [Hv Hrest].
    cbn [clean forallb] in Hc. apply andb_prop in Hc. destruct Hc as [Hcv Hcr].
    apply andb_prop in Hcv. destruct Hcv as [Hnv Hcv]. apply negb_true_iff in Hnv.
    cbn [forin_elems]. rewrite (visit_clean value d Hd Hv Hcv Hnv).
    cbn [mbind option_bind]. rewrite (IH Hrest Hcr). reflexivity.
  - apply Forall_cons in Hall. destruct Hall as [_ Hrest].
    cbn [clean forallb] in Hc.
    cbn [forin_elems]. rewrite (IH Hrest Hc). reflexivity.
Qed.
End cleanup_clean.

Lemma delete_prop_clean (props : list (string * val)) :
  clean (VObj props) = true -> delete_prop "$$hashKey" props = props.
Proof.
  unfold delete_prop. induction props as [|[key value] rest IH]; intros Hc.
  - reflexivity.
  - cbn [clean forallb] in Hc. apply andb_prop in Hc. destruct Hc as [Hcv Hcr].
    apply andb_prop in Hcv. destruct Hcv as [Hk _].
    apply andb_prop in Hk. destruct Hk as [Hk _]. apply negb_true_iff in Hk.
    rewrite filter_cons. cbn [fst].
    rewrite decide_True by (intros ->; discriminate).
    rewrite (IH Hcr). reflexivity.
Qed.

Lemma cleanupInput_fuel_clean (fuel : nat) :
  forall v d, (d < fuel)%nat -> (depth v <= d)%nat -> clean v = true ->
  is_nullish v = false ->
  cleanupInput_fuel fuel v = Some (v, None).
Proof.
  induction fuel as [|fuel IH]; intros v d Hd Hv Hc Hn; [lia|].
  rewrite cleanupInput_fuel_unfold.
  destruct v as [ | | b | k | s | elems | props]; try reflexivity; try discriminate.
  - destruct d as [|d']; [cbn [depth] in Hv; lia|].
    assert (He : Forall (depth_below d') elems) by (apply depth_VArr_le; exact Hv).
    rewrite (forin_elems_clean _ fuel IH elems d' ltac:(lia) He Hc). reflexivity.
  - destruct d as [|d']; [cbn [depth] in Hv; lia|].
    assert (Hp : Forall (fun p => (depth p.2 <= d')%nat) props)
      by (apply depth_VObj_le; exact Hv).
    rewrite (delete_prop_clean props Hc).
    rewrite (forin_props_clean _ fuel IH props d' ltac:(lia) Hp Hc). reflexivity.
Qed.

Lemma cleanupInput_clean (v : val) :
  clean v = true -> is_nullish v = false -> cleanupInput v = (v, None).
Proof.
  intros Hc Hn. unfold cleanupInput.
  rewrite (cleanupInput_fuel_clean (S (depth v)) v (depth v)) by (assumption || lia).
  reflexivity.
Qed.

(** [cleanupInput] returns normally only on a value that is not null or undefined. *)
Lemma cleanupInput_normal_not_nullish (v v' : val) :
  cleanupInput v = (v', None) -> is_nullish v = false.
Proof.
  intros H. destruct v; try reflexivity; discriminate.
Qed.

(** X11: an object that holds no [$$hashKey] and no null or undefined
    property at any depth is safe to pass: the cleanup returns normally,
    and the constructor, [buildBuffers] and [buildOne] leave the caller's
    object exactly as it was, whatever the registry and the name. *)
Theorem clean_data_untouched (messages : Messages) (name : string) (data : val) :
  clean data = true ->
  is_nullish data = false ->
  cleanupInput data = (data, None)
  /\ (BuiltMessage_constructor messages name data).1 = data
  /\ (buildBuffers messages name data).1 = data
  /\ (buildOne messages name data).1 = data.
Proof.
  intros Hc Hn. pose proof (cleanupInput_clean data Hc Hn) as Hclean.
  assert (Hnew : (BuiltMessage_constructor messages name data).1 = data).
  { unfold BuiltMessage_constructor.
    destruct (messagesByName_get messages name) as [builder|]; [|reflexivity].
    rewrite Hclean. destruct (truthy data); destruct (builder _); reflexivity. }
  repeat split; try assumption.
  - rewrite buildBuffers_data. exact Hnew.
  - rewrite buildOne_data. exact Hnew.
Qed.

Lemma clean_data_untouched_witness :
  cleanupInput (prune angular_data) = (prune angular_data, None)
  /\ (BuiltMessage_constructor ping_messages_typed "Ping" (prune angular_data)).1
     = prune angular_data
  /\ (buildBuffers ping_messages_typed "Ping" (prune angular_data)).1 = prune angular_data
  /\ (buildOne ping_messages_typed "Ping" (prune angular_data)).1 = prune angular_data.
Proof.
  apply (clean_data_untouched ping_messages_typed "Ping" (prune angular_data)).
  - reflexivity.
  - reflexivity.
Defined.

(** X12: the cleanup is idempotent: on the object that a returning call
    of [cleanupInput] leaves, a second call returns normally and changes
    nothing. *)
Theorem cleanupInput_idempotent (v v' : val) :
  cleanupInput v = (v', None) -> cleanupInput v' = (v', None).
Proof.
  intros H. pose proof (cleanupInput_normal_not_nullish _ _ H) as Hn.
  apply cleanupInput_normal in H. subst v'.
  apply cleanupInput_clean; [apply clean_prune|].
  rewrite is_nullish_prune. exact Hn.
Qed.

Lemma cleanupInput_idempotent_witness :
  cleanupInput (prune angular_data) = (prune angular_data, None).
Proof.
  apply (cleanupInput_idempotent angular_data (prune angular_data)). reflexivity.
Defined.

(** The only exception the cleanup ends with is the TypeError. *)
Section cleanup_errors.
Variable rec : val -> option (val * completion).
Hypothesis rec_error : forall v v' e, rec v = Some (v', Some e) -> e = TypeError.
Hypothesis rec_null : forall v', rec VNull <> Some (v', None).

Lemma forEach_elems_error (elems elems' : list (option val)) (e : error) :
  forEach_elems rec elems = Some (elems', Some e) -> e = TypeError.
Proof.
  revert elems'. induction elems as [|[i|] rest IH]; intros elems' H;
    cbn [forEach_elems] in H.
  - discriminate.
  - destruct (typeof_object i).
    + destruct (rec i) as [[i' [ei|]]|] eqn:Ri; cbn [mbind option_bind] in H;
        try discriminate.
      * injection H as _ <-. eapply rec_error. exact Ri.
      * destruct (forEach_elems rec rest) as [[rest' c']|] eqn:Er;
          cbn [mbind option_bind] in H; try discriminate.
        injection H as _ ->. eapply IH. reflexivity.
    + destruct (forEach_elems rec rest) as [[rest' c']|] eqn:Er;
        cbn [mbind option_bind] in H; try discriminate.
      injection H as _ ->. eapply IH. reflexivity.
  - destruct (forEach_elems rec rest) as [[rest' c']|] eqn:Er;
      cbn [mbind option_bind] in H; try discriminate.
    injection H as _ ->. eapply IH. reflexivity.
Qed.

Lemma forEach_elems_no_null (elems elems' : list (option val)) :
  forEach_elems rec elems = Some (elems', None) -> Some VNull ∉ elems.
Proof.
  revert elems'. induction elems as [|[i|] rest IH]; intros elems' H;
    cbn [forEach_elems] in H.
  - apply not_elem_of_nil.
  - apply not_elem_of_cons.
    destruct (typeof_object i) eqn:Ti.
    + destruct (rec i) as [[i' [ei|]]|] eqn:Ri; cbn [mbind option_bind] in H;
        try discriminate.
      destruct (forEach_elems rec rest) as [[rest' c']|] eqn:Er;
        cbn [mbind option_bind] in H; try discriminate.
      injection H as _ ->. split; [|eapply IH; reflexivity].
      intros Heq. injection Heq as <-. exact (rec_null _ Ri).
    + destruct (forEach_elems rec rest) as [[rest' c']|] eqn:Er;
        cbn [mbind option_bind] in H; try discriminate.
      injection H as _ ->. split; [|eapply IH; reflexivity].
      intros Heq. injection Heq as <-. discriminate.
  - apply not_elem_of_cons. split; [discriminate|].
    destruct (forEach_elems rec rest) as [[rest' c']|] eqn:Er;
      cbn [mbind option_bind] in H; try discriminate.
    injection H as _ ->. eapply IH. reflexivity.
Qed.

Lemma visit_error (value : val) (kept : option val) (e : error) :
  visit rec value = Some (kept, Some e) -> e = TypeError.
Proof.
  unfold visit. destruct (is_nullish value); [discriminate|].
  destruct value as [ | | b | k | s | elems | props]; try discriminate.
  - destruct (forEach_elems rec elems) as [[elems' [ee|]]|] eqn:Ef;
      cbn [mbind option_bind]; try discriminate.
    + intros H. injection H as _ <-. eapply forEach_elems_error. exact Ef.
    + destruct (rec (VArr elems')) as [[v' c]|] eqn:Rv; cbn [mbind option_bind];
        try discriminate.
      intros H. injection H as _ ->. eapply rec_error. exact Rv.
  - destruct (rec (VObj props)) as [[v' c]|] eqn:Rv; cbn [mbind option_bind];
      try discriminate.
    intros H. injection H as _ ->. eapply rec_error. exact Rv.
Qed.

Lemma visit_no_null (elems : list (option val)) (kept : option val) :
  visit rec (VArr elems) = Some (kept, None) -> Some VNull ∉ elems.
Proof.
  unfold visit. cbn [is_nullish].
  destruct (forEach_elems rec elems) as [[elems' [ee|]]|] eqn:Ef;
    cbn [mbind option_bind]; try discriminate.
  intros _. eapply forEach_elems_no_null. exact Ef.
Qed.

Lemma forin_props_error (props props' : list (string * val)) (e : error) :
  forin_props rec props = Some (props', Some e) -> e = TypeError.
Proof.
  revert props'. induction props as [|[key value] rest IH]; intros props' H;
    cbn [forin_props] in H.
  - discriminate.
  - destruct (visit rec value) as [[kept [ev|]]|] eqn:Ev; cbn [mbind option_bind] in H;
      try discriminate.
    + injection H as _ <-. eapply visit_error. exact Ev.
    + destruct (forin_props rec rest) as [[rest' c']|] eqn:Er;
        cbn [mbind option_bind] in H; try discriminate.
      injection H as _ ->. eapply IH. reflexivity.
Qed.

Lemma forin_props_no_null (props props' : list (string * val)) :
  forin_props rec props = Some (props', None) ->
  forall key elems, (key, VArr elems) ∈ props -> Some VNull ∉ elems.
Proof.
  revert props'. induction props as [|[k value] rest IH]; intros props' H key elems Hin;
    cbn [forin_props] in H.
  - apply elem_of_nil in Hin. contradiction.
  - destruct (visit rec value) as [[kept [ev|]]|] eqn:Ev; cbn [mbind option_bind] in H;
      try discriminate.
    destruct (forin_props rec rest) as [[rest' c']|] eqn:Er;
      cbn [mbind option_bind] in H; try discriminate.
    injection H as _ ->.
    apply elem_of_cons in Hin. destruct Hin as [Heq | Hin].
    + injection Heq as _ <-. eapply visit_no_null. exact Ev.
    + eapply IH; [reflexivity | exact Hin].
Qed.

Lemma forin_elems_error (elems elems' : list (option val)) (e : error) :
  forin_elems rec elems = Some (elems', Some e) -> e = TypeError.
Proof.
  revert elems'. induction elems as [|[value|] rest IH]; intros elems' H;
    cbn [forin_elems] in H.
  - discriminate.
  - destruct (visit rec value) as [[kept [ev|]]|] eqn:Ev; cbn [mbind option_bind] in H;
      try discriminate.
    + injection H as _ <-. eapply visit_error. exact Ev.
    + destruct (forin_elems rec rest) as [[rest' c']|] eqn:Er;
        cbn [mbind option_bind] in H; try discriminate.
      injection H as _ ->. eapply IH. reflexivity.
  - destruct (forin_elems rec rest) as [[rest' c']|] eqn:Er;
      cbn [mbind option_bind] in H; try discriminate.
    injection H as _ ->. eapply IH. reflexivity.
Qed.
End cleanup_errors.

Lemma cleanupInput_fuel_error (fuel : nat) :
  forall v v' e, cleanupInput_fuel fuel v = Some (v', Some e) -> e = TypeError.
Proof.
  induction fuel as [|fuel IH]; intros v v' e H; [discriminate|].
  rewrite cleanupInput_fuel_unfold in H.
  destruct v as [ | | b | k | s | elems | props]; try congruence.
  - destruct (forin_elems (cleanupInput_fuel fuel) elems) as [[elems' c]|] eqn:E;
      cbn [mbind option_bind] in H; try discriminate.
    injection H as _ ->. eapply forin_elems_error; [exact IH | exact E].
  - destruct (forin_props (cleanupInput_fuel fuel) (delete_prop "$$hashKey" props))
      as [[props' c]|] eqn:E; cbn [mbind option_bind] in H; try discriminate.
    injection H as _ ->. eapply forin_props_error; [exact IH | exact E].
Qed.

Lemma cleanupInput_fuel_null (fuel : nat) (v' : val) :
  cleanupInput_fuel fuel VNull <> Some (v', None).
Proof. destruct fuel; discriminate. Qed.

Lemma cleanupInput_run (v : val) :
  cleanupInput_fuel (S (depth v)) v = Some (cleanupInput v).
Proof. apply cleanupInput_fuel_enough. lia. Qed.

(** ** Names the registry does not hold *)

Lemma messagesByName_get_missing (messages : Messages) (name : string) :
  messagesByName messages !! name = None ->
  name ∉ Object_prototype_names ->
  messagesByName_get messages name = None.
Proof.
  intros Hn Hp. unfold messagesByName_get. rewrite Hn.
  destruct (String.eqb_spec name "constructor") as [-> | _].
  - exfalso. apply Hp. apply list_elem_of_here.
  - rewrite bool_decide_eq_false_2 by exact Hp. reflexivity.
Qed.

Lemma Object_constructor_encodeAB (data : option val) (msg : Message) :
  Object_constructor data = Ok msg -> encodeAB msg = Throw TypeError.
Proof.
  unfold Object_constructor.
  destruct data as [[ | | b | n | s | elems | props]|]; try discriminate.
  destruct (get_prop "$type" props) as [[ | | b | n | s | telems | tprops]|];
    try discriminate.
  destruct (get_prop "options" tprops) as [[ | | b | n | s | oelems | oprops]|];
    try discriminate; intros H; injection H as <-; reflexivity.
Qed.

(** What an inherited member does as a builder: it fails with a
    TypeError, or gives an object that cannot be encoded. *)
Lemma messagesByName_get_inherited (messages : Messages) (name : string) :
  messagesByName messages !! name = None ->
  name ∈ Object_prototype_names ->
  exists builder : Builder,
    messagesByName_get messages name = Some builder
    /\ forall data,
         builder data = Throw TypeError
         \/ exists msg, builder data = Ok msg /\ encodeAB msg = Throw TypeError.
Proof.
  intros Hn Hp. unfold messagesByName_get. rewrite Hn.
  destruct (String.eqb name "constructor").
  - exists Object_constructor. split; [reflexivity|]. intros data.
    destruct (Object_constructor data) as [msg|e] eqn:E.
    + right. exists msg. split; [reflexivity|].
      exact (Object_constructor_encodeAB _ _ E).
    + left. f_equal. revert E. unfold Object_constructor.
      destruct data as [[ | | b | n | s | elems | props]|]; try congruence.
      destruct (get_prop "$type" props) as [[ | | b | n | s | telems | tprops]|];
        try congruence.
      destruct (get_prop "options" tprops) as [[ | | b | n | s | oelems | oprops]|];
        congruence.
  - rewrite bool_decide_eq_true_2 by exact Hp.
    exists (fun _ => Throw TypeError). split; [reflexivity|]. intros data. left. reflexivity.
Qed.

Lemma encode_without_encodeAB (this : BuiltMessage) :
  encodeAB (message this) = Throw TypeError ->
  encode this = Throw TypeError /\ encodeOne this = Throw TypeError.
Proof.
  intros H. unfold encode, encodeOne, _encodeLong. rewrite H. split; reflexivity.
Qed.

(** X1: what the lookup of a name that the registry does not hold leads
    to.  The registry is a plain object, so the lookup goes on in
    [Object.prototype].  A name that is not found there either is rejected
    before anything else happens: the constructor, [buildBuffers],
    [buildOne] and [buildAndSend] throw the error naming it, the caller's
    object is left as it was and nothing reaches the sender.  A name that
    is found there ("constructor", "toString", ...) passes the check: the
    cleanup runs on the caller's object, and [buildBuffers], [buildOne]
    and [buildAndSend] fail with a TypeError, not with the error naming
    the message; nothing reaches the sender either. *)
Theorem name_not_held {W : Type} (sender : Uint8Array -> W -> W * result unit)
    (messages : Messages) (name : string) (data : val) (w : W) :
  messagesByName messages !! name = None ->
  (name ∉ Object_prototype_names ->
   BuiltMessage_constructor messages name data = (data, Throw (MessageNameNotFound name))
   /\ buildBuffers messages name data = (data, Throw (MessageNameNotFound name))
   /\ buildOne messages name data = (data, Throw (MessageNameNotFound name))
   /\ buildAndSend (recording sender) messages name data ([], w)
      = (data, ([], w), Throw (MessageNameNotFound name)))
  /\ (name ∈ Object_prototype_names ->
      buildBuffers messages name data = ((cleanupInput data).1, Throw TypeError)
      /\ buildOne messages name data = ((cleanupInput data).1, Throw TypeError)
      /\ buildAndSend (recording sender) messages name data ([], w)
         = ((cleanupInput data).1, ([], w), Throw TypeError)).
Proof.
  intros Hn. split; intros Hp.
  - assert (Hnew : BuiltMessage_constructor messages name data
                   = (data, Throw (MessageNameNotFound name))).
    { unfold BuiltMessage_constructor.
      rewrite (messagesByName_get_missing _ _ Hn Hp). reflexivity. }
    assert (Hbuild : buildBuffers messages name data
                     = (data, Throw (MessageNameNotFound name)))
      by (unfold buildBuffers; rewrite Hnew; reflexivity).
    repeat split; try assumption.
    + unfold buildOne. rewrite Hnew. reflexivity.
    + unfold buildAndSend. rewrite Hbuild. reflexivity.
  - destruct (messagesByName_get_inherited _ _ Hn Hp) as (builder & Hget & Hb).
    assert (Hboth : buildBuffers messages name data = ((cleanupInput data).1, Throw TypeError)
                    /\ buildOne messages name data = ((cleanupInput data).1, Throw TypeError)).
    { unfold buildBuffers, buildOne, BuiltMessage_constructor. rewrite Hget.
      pose proof (cleanupInput_run data) as Hrun.
      destruct (cleanupInput data) as [data' [e|]]; cbn [fst].
      - rewrite (cleanupInput_fuel_error _ _ _ _ Hrun). split; reflexivity.
      - destruct (Hb (if truthy data' then Some data' else None)) as [Hthrow | (msg & Hok & Hab)].
        + destruct (truthy data'); rewrite Hthrow; split; reflexivity.
        + assert (Hmsg : (if truthy data' then builder (Some data') else builder None)
                         = Ok msg) by (destruct (truthy data'); exact Hok).
          rewrite Hmsg. cbn [mbind result_bind].
          match goal with
          | |- context [encode ?t] =>
              destruct (encode_without_encodeAB t Hab) as [-> ->]
          end.
          split; reflexivity. }
    destruct Hboth as [Hbuild Hone]. repeat split; try assumption.
    unfold buildAndSend. rewrite Hbuild. reflexivity.
Qed.

Lemma name_not_held_witness :
  (BuiltMessage_constructor ping_messages_typed "Pong" angular_data
     = (angular_data, Throw (MessageNameNotFound "Pong"))
   /\ buildBuffers ping_messages_typed "Pong" angular_data
      = (angular_data, Throw (MessageNameNotFound "Pong"))
   /\ buildOne ping_messages_typed "Pong" angular_data
      = (angular_data, Throw (MessageNameNotFound "Pong"))
   /\ buildAndSend (recording failing_sender) ping_messages_typed "Pong" angular_data
        ([], 3%nat)
      = (angular_data, ([], 3%nat), Throw (MessageNameNotFound "Pong")))
  /\ (buildBuffers ping_messages_typed "toString" angular_data
      = ((cleanupInput angular_data).1, Throw TypeError)
      /\ buildOne ping_messages_typed "toString" angular_data
         = ((cleanupInput angular_data).1, Throw TypeError)
      /\ buildAndSend (recording failing_sender) ping_messages_typed "toString" angular_data
           ([], 3%nat)
         = ((cleanupInput angular_data).1, ([], 3%nat), Throw TypeError)).
Proof.
  split.
  - apply (name_not_held failing_sender ping_messages_typed "Pong" angular_data 3%nat).
    + reflexivity.
    + unfold Object_prototype_names.
      repeat (apply not_elem_of_cons; split; [discriminate|]). apply not_elem_of_nil.
  - apply (name_not_held failing_sender ping_messages_typed "toString" angular_data 3%nat).
    + reflexivity.
    + unfold Object_prototype_names. repeat constructor.
Defined.

(** An inherited name: the object has been cleaned when the call fails. *)
Example inherited_name_cleans_data :
  buildBuffers ping_messages_typed "toString" angular_data
  = (VObj [("coin_name", VStr "Bitcoin"); ("inputs", VArr [Some (VObj [("amount", VNum 5)])])],
     Throw TypeError).
Proof. reflexivity. Qed.

(** [Object] as the builder: the constructor returns when the data object
    carries [$type.options] itself, and the encoding fails. *)
Example constructor_name_builds_an_object :
  (BuiltMessage_constructor ping_messages_typed "constructor"
     (VObj [("$type", VObj [("options", VObj [("(wire_type)", VNum 7)])])])).2
  = Ok {| message := {| options := {[ "(wire_type)" := VNum 7 ]}; encodeAB := Throw TypeError |};
          type := VNum 7 |}
  /\ (buildBuffers ping_messages_typed "constructor"
        (VObj [("$type", VObj [("options", VObj [("(wire_type)", VNum 7)])])])).2
     = Throw TypeError.
Proof. split; reflexivity. Qed.

(** X13: when [cleanupInput] throws, what it throws is a TypeError (from
    the [delete] on null or undefined), never anything else; so that is
    the only error the constructor can raise between the lookup of the
    name and the call of the builder. *)
Theorem cleanupInput_throws_TypeError (v v' : val) (e : error) :
  cleanupInput v = (v', Some e) ->
  e = TypeError
  /\ (forall messages name builder,
        messagesByName messages !! name = Some builder ->
        BuiltMessage_constructor messages name v = (v', Throw TypeError)).
Proof.
  intros H.
  assert (He : e = TypeError).
  { eapply (cleanupInput_fuel_error (S (depth v))).
    rewrite cleanupInput_run, H. reflexivity. }
  split; [exact He|].
  intros messages name builder Hb. unfold BuiltMessage_constructor.
  rewrite (messagesByName_get_own _ _ _ Hb), H, He. reflexivity.
Qed.

Lemma cleanupInput_throws_TypeError_witness :
  TypeError = TypeError
  /\ (forall messages name builder,
        messagesByName messages !! name = Some builder ->
        BuiltMessage_constructor messages name (VObj [("a", VArr [Some VNull]); ("b", VNull)])
        = (VObj [("a", VArr [Some VNull]); ("b", VNull)], Throw TypeError)).
Proof.
  apply (cleanupInput_throws_TypeError
           (VObj [("a", VArr [Some VNull]); ("b", VNull)])
           (VObj [("a", VArr [Some VNull]); ("b", VNull)]) TypeError).
  reflexivity.
Defined.

(** X14: [typeof null] being [`object`], an object with a property (other
    than [$$hashKey]) whose value is an array holding a null element makes
    [cleanupInput] throw a TypeError instead of removing the null:
    [buildBuffers] and [buildOne] fail with it for every known name, and
    the builder is never reached. *)
Theorem null_in_array_throws (props : list (string * val)) (key : string)
    (elems : list (option val)) :
  (key, VArr elems) ∈ props ->
  key <> "$$hashKey" ->
  Some VNull ∈ elems ->
  (cleanupInput (VObj props)).2 = Some TypeError
  /\ (forall messages name builder,
        messagesByName messages !! name = Some builder ->
        (buildBuffers messages name (VObj props)).2 = Throw TypeError
        /\ (buildOne messages name (VObj props)).2 = Throw TypeError).
Proof.
  intros Hin Hkey Hnull.
  assert (Hc : (cleanupInput (VObj props)).2 = Some TypeError).
  { pose proof (cleanupInput_run (VObj props)) as Hrun.
    destruct (cleanupInput (VObj props)) as [v' [e|]] eqn:E; cbn [snd].
    - f_equal. eapply cleanupInput_fuel_error. exact Hrun.
    - exfalso. rewrite cleanupInput_fuel_unfold in Hrun.
      destruct (forin_props _ (delete_prop "$$hashKey" props)) as [[props' c]|] eqn:Ef;
        cbn [mbind option_bind] in Hrun; try discriminate.
      injection Hrun as _ ->.
      eapply (forin_props_no_null _ (cleanupInput_fuel_null _) _ _ Ef key elems);
        [|exact Hnull].
      unfold delete_prop. apply list_elem_of_filter. split; [exact Hkey | exact Hin]. }
  split; [exact Hc|].
  intros messages name builder Hb.
  assert (Hnew : (BuiltMessage_constructor messages name (VObj props)).2 = Throw TypeError).
  { unfold BuiltMessage_constructor. rewrite (messagesByName_get_own _ _ _ Hb).
    destruct (cleanupInput (VObj props)) as [v' c]. cbn [snd] in Hc. subst c. reflexivity. }
  unfold buildBuffers, buildOne.
  destruct (BuiltMessage_constructor messages name (VObj props)) as [d r].
  cbn [snd] in *. subst r. split; reflexivity.
Qed.

Lemma null_in_array_throws_witness :
  (cleanupInput (VObj [("a", VArr [Some (VNum 1); Some VNull]); ("b", VNull)])).2
  = Some TypeError
  /\ (forall messages name builder,
        messagesByName messages !! name = Some builder ->
        (buildBuffers messages name
           (VObj [("a", VArr [Some (VNum 1); Some VNull]); ("b", VNull)])).2
        = Throw TypeError
        /\ (buildOne messages name
              (VObj [("a", VArr [Some (VNum 1); Some VNull]); ("b", VNull)])).2
           = Throw TypeError).
Proof.
  apply (null_in_array_throws
           [("a", VArr [Some (VNum 1); Some VNull]); ("b", VNull)] "a"
           [Some (VNum 1); Some VNull]).
  - apply list_elem_of_here.
  - discriminate.
  - apply list_elem_of_further, list_elem_of_here.
Defined.

(** X10: [null] and [undefined] as [data] make the constructor throw a
    TypeError in the cleanup, before the builder; the builder is called
    without an argument exactly for the other falsy values ([false], [0],
    the empty string), which the cleanup leaves alone. *)
Theorem falsy_data (messages : Messages) (name : string) (data : val) (builder : Builder) :
  messagesByName messages !! name = Some builder ->
  truthy data = false ->
  (is_nullish data = true ->
     BuiltMessage_constructor messages name data = (data, Throw TypeError))
  /\ (is_nullish data = false ->
        (BuiltMessage_constructor messages name data).1 = data
        /\ (forall this, (BuiltMessage_constructor messages name data).2 = Ok this ->
              builder None = Ok (message this))
        /\ (forall e, builder None = Throw e ->
              (BuiltMessage_constructor messages name data).2 = Throw e)).
Proof.
  intros Hb Hf. unfold BuiltMessage_constructor. rewrite (messagesByName_get_own _ _ _ Hb). split.
  - intros Hn. destruct data; try discriminate; reflexivity.
  - intros Hn.
    assert (Hc : cleanupInput data = (data, None))
      by (destruct data; try discriminate; reflexivity).
    rewrite Hc, Hf. destruct (builder None) as [msg|e]; cbn [fst snd].
    + repeat split.
      * intros this H. injection H as <-. reflexivity.
      * discriminate.
    + repeat split.
      * discriminate.
      * intros e' H. injection H as <-. reflexivity.
Qed.

Lemma falsy_data_witness :
  (is_nullish (VNum 0) = true ->
     BuiltMessage_constructor ping_messages_typed "Ping" (VNum 0)
     = (VNum 0, Throw TypeError))
  /\ (is_nullish (VNum 0) = false ->
        (BuiltMessage_constructor ping_messages_typed "Ping" (VNum 0)).1 = VNum 0
        /\ (forall this,
              (BuiltMessage_constructor ping_messages_typed "Ping" (VNum 0)).2 = Ok this ->
              (fun _ : option val => Ok ping_message) None = Ok (message this))
        /\ (forall e, (fun _ : option val => Ok ping_message) None = Throw e ->
              (BuiltMessage_constructor ping_messages_typed "Ping" (VNum 0)).2 = Throw e)).
Proof.
  apply (falsy_data ping_messages_typed "Ping" (VNum 0) (fun _ => Ok ping_message)).
  - reflexivity.
  - reflexivity.
Defined.

(** ** Sending in sequence *)

(** X16: sending one list of buffers after another is sending them as one
    list: [sendBuffers] on [xs ++ ys] sends [xs], then [ys] in the state
    that leaves; if a send of [xs] fails, nothing of [ys] is sent and the
    failure is the result. *)
Theorem sendBuffers_app {W : Type} (sender : Uint8Array -> W -> W * result unit)
    (xs ys : list Uint8Array) (w : W) :
  sendBuffers sender (xs ++ ys) w
  = match sendBuffers sender xs w with
    | (w', Ok _) => sendBuffers sender ys w'
    | (w', Throw e) => (w', Throw e)
    end.
Proof.
  revert w. induction xs as [|x xs IH]; intros w.
  - reflexivity.
  - cbn [app sendBuffers]. destruct (sender x w) as [w1 [u|e]]; [apply IH | reflexivity].
Qed.

(** X9: over a transport that accepts every buffer, [buildAndSend]
    resolves and has handed the sender exactly the chunks of
    [buildBuffers], each once and in their order. *)
Theorem buildAndSend_reliable {W : Type} (sender : Uint8Array -> W -> W * result unit)
    (messages : Messages) (name : string) (data data' : val)
    (buffers : list Uint8Array) (w : W) :
  buildBuffers messages name data = (data', Ok buffers) ->
  (forall buffer w0, (sender buffer w0).2 = Ok tt) ->
  exists w',
    buildAndSend (recording sender) messages name data ([], w)
    = (data', (buffers, w'), Ok tt).
Proof.
  intros Hb Hs. unfold buildAndSend. rewrite Hb.
  assert (Hsend : forall bs log w0, exists w',
             sendBuffers (recording sender) bs (log, w0) = ((log ++ bs, w'), Ok tt)).
  { induction bs as [|b bs IH]; intros log w0.
    - exists w0. cbn [sendBuffers]. rewrite app_nil_r. reflexivity.
    - cbn [sendBuffers]. unfold recording at 1. cbn [fst snd].
      pose proof (Hs b w0) as Hb0. destruct (sender b w0) as [w1 r]. cbn [snd] in Hb0.
      subst r. destruct (IH (log ++ [b]) w1) as [w' Hw'].
      exists w'. rewrite Hw', <- app_assoc. reflexivity. }
  destruct (Hsend buffers [] w) as [w' Hw']. exists w'. rewrite Hw'. reflexivity.
Qed.

Lemma buildAndSend_reliable_witness :
  exists w',
    buildAndSend (recording (fun (_ : Uint8Array) (n : nat) => (S n, Ok tt)))
      ping_messages_typed "Ping" (VObj []) ([], 0%nat)
    = (VObj [], ([[x23; x23; x00; x01; x00; x00; x00; x00] ++ replicate 55 x00], w'), Ok tt).
Proof.
  apply (buildAndSend_reliable (fun (_ : Uint8Array) (n : nat) => (S n, Ok tt))
           ping_messages_typed "Ping" (VObj []) (VObj [])
           [[x23; x23; x00; x01; x00; x00; x00; x00] ++ replicate 55 x00] 0%nat).
  - reflexivity.
  - reflexivity.
Defined.

(** ** The two decoders *)

(** X17: the chunked header is the bare header behind the two sentinel
    bytes: for data of at least 6 bytes, [decodeChunked] on 0x23 0x23
    followed by the data returns the typeId that [decode] returns on the
    data, the length held in bytes 2-5 of the data, and a ByteBuffer
    whose contents from the cursor on are the buffer that [decode]
    returns. *)
Theorem decodeChunked_agrees_with_decode (data : Uint8Array) :
  (6 <= length data)%nat ->
  Z.of_nat (length data) < 2 ^ 31 ->
  exists chunked bare,
    decodeChunked ([x23; x23] ++ data) = Ok chunked
    /\ decode data = Ok bare
    /\ DecodedChunked.typeId chunked = Decoded.typeId bare
    /\ DecodedChunked.length chunked = from_big_endian (take 4 (drop 2 data))
    /\ ByteBuffer.toBuffer (DecodedChunked.restBuffer chunked) = Ok (Decoded.buffer bare).
Proof.
  intros Hlen Hcap. eexists _, _.
  split; [apply decodeChunked_bytes; [cbn [app length]; lia | reflexivity | reflexivity]|].
  split; [apply decode_bytes; assumption|].
  cbn [DecodedChunked.typeId DecodedChunked.length DecodedChunked.restBuffer
       Decoded.typeId Decoded.buffer app].
  repeat split.
  unfold ByteBuffer.toBuffer, ByteBuffer.capacity.
  cbn [ByteBuffer.buffer ByteBuffer.offset ByteBuffer.limit length].
  set (len := Z.of_nat (S (S (length data)))).
  assert (Hl : 8 <= len) by (unfold len; lia).
  rewrite !Z.gtb_ltb.
  rewrite (proj2 (Z.ltb_ge 8 0)), (proj2 (Z.ltb_ge len 8)), (proj2 (Z.ltb_ge len len)) by lia.
  cbn [orb andb Z.eqb].
  unfold JS.subarray, JS.relative_index. cbn [length]. fold len.
  rewrite (proj2 (Z.ltb_ge 8 0)), (proj2 (Z.ltb_ge len 0)) by lia.
  rewrite Z.min_id, Z.min_l by lia. unfold len.
  change (Z.to_nat 8) with 8%nat.
  destruct data as [|b0 [|b1 [|b2 [|b3 [|b4 [|b5 rest]]]]]]; cbn [length] in Hlen; try lia.
  simpl drop. rewrite !drop_0. rewrite take_ge; [reflexivity|]. cbn [length]. lia.
Qed.

Lemma decodeChunked_agrees_with_decode_witness :
  exists chunked bare,
    decodeChunked ([x23; x23] ++ [x00; x01; x00; x00; x00; x01; xaa]) = Ok chunked
    /\ decode [x00; x01; x00; x00; x00; x01; xaa] = Ok bare
    /\ DecodedChunked.typeId chunked = Decoded.typeId bare
    /\ DecodedChunked.length chunked
       = from_big_endian (take 4 (drop 2 [x00; x01; x00; x00; x00; x01; xaa]))
    /\ ByteBuffer.toBuffer (DecodedChunked.restBuffer chunked) = Ok (Decoded.buffer bare).
Proof.
  apply (decodeChunked_agrees_with_decode [x00; x01; x00; x00; x00; x01; xaa]).
  - simpl. lia.
  - vm_compute. reflexivity.
Defined.

(** ** Termination of the cleanup *)

(** X18: the recursion of [cleanupInput] is bounded by the nesting of the
    value: with a call stack deeper than the value is nested the call
    returns, its outcome does not depend on how much deeper, and the
    object it leaves is nested no deeper than before. *)
Theorem cleanupInput_terminates (v : val) (fuel : nat) :
  (depth v < fuel)%nat ->
  cleanupInput_fuel fuel v = Some (cleanupInput v)
  /\ (depth (cleanupInput v).1 <= depth v)%nat.
Proof.
  intros Hf. split; [apply cleanupInput_fuel_enough; exact Hf|].
  destruct (cleanupInput_fuel_total (S (depth v)) v (depth v)) as (v' & c & E & Hd);
    [lia..|].
  rewrite cleanupInput_run in E. injection E as ->. exact Hd.
Qed.

Lemma cleanupInput_terminates_witness :
  cleanupInput_fuel 4 angular_data = Some (cleanupInput angular_data)
  /\ (depth (cleanupInput angular_data).1 <= depth angular_data)%nat.
Proof.
  apply (cleanupInput_terminates angular_data 4). vm_compute. lia.
Defined.
